(** * A hand-rolled HTTP/1.1 client (http.py): model and verification

    The firmware talks to its collector through [http.py], a small HTTP/1.1
    client built on a stream socket.  This development embeds the module
    function by function:

    - Python [str] values are lists of Unicode code points, [bytes] values
      lists of octets, so that [len] of a text and the length of its UTF-8
      encoding are different numbers;
    - an exception is a value of [exn]; a call that may raise returns a
      [result];
    - the socket is an explicit world: a script of what the peer does and
      the trace of the operations performed on the socket. *)

From Stdlib Require Import String Ascii.
From Stdlib Require Import List NArith ZArith Bool Lia.
From Stdlib Require Decimal DecimalN QArith.
Import ListNotations.

(** ** Python values *)

Definition char  := N.
Definition pystr := list char.
Definition bytes := list N.

(** A [float] is only ever handed on (the time-out given to the socket). *)
Definition float : Type := QArith_base.Q.

(** An ASCII literal, written as a Rocq string.  Rocq strings have no
    escape sequences: control characters are spelled out below. *)
Definition lit (s : string) : pystr :=
  map N_of_ascii (list_ascii_of_string s).
Arguments lit s%_string.

Definition CR : char := 13%N.
Definition LF : char := 10%N.
Definition SP : char := 32%N.
Definition COLON : char := 58%N.
Definition SLASH : char := 47%N.
Definition CRLF : pystr := [CR; LF].
Definition CRLFCRLF : pystr := [CR; LF; CR; LF].

Inductive exn : Type :=
| ValueError (msg : string)
| IndexError (msg : string)
| UnicodeEncodeError
| UnicodeDecodeError
| OSError (msg : string).

Inductive result (A : Type) : Type :=
| Ok (a : A)
| Raise (e : exn).
Arguments Ok {A} a.
Arguments ValueError msg%_string.
Arguments IndexError msg%_string.
Arguments OSError msg%_string.
Arguments Raise {A} e.

Definition bind {A B} (r : result A) (k : A -> result B) : result B :=
  match r with
  | Ok a => k a
  | Raise e => Raise e
  end.

Declare Scope py_scope.
Delimit Scope py_scope with py.
Notation "x <- r ;; k" := (bind r (fun x => k))
  (at level 61, r at next level, right associativity) : py_scope.
Notation "' p <- r ;; k" := (bind r (fun x => let p := x in k))
  (at level 61, p pattern, r at next level, right associativity) : py_scope.
Open Scope py_scope.


(** ** The [str] methods the module calls *)

Module Str.

Fixpoint eqb (a b : pystr) : bool :=
    match a, b with
    | [], [] => true
    | x :: a', y :: b' => N.eqb x y && eqb a' b'
    | _, _ => false
    end.

  (** [s.startswith(p)] *)
Fixpoint startswith (s p : pystr) {struct p} : bool :=
    match p, s with
    | [], _ => true
    | _ :: _, [] => false
    | y :: p', x :: s' => N.eqb x y && startswith s' p'
    end.

  (** [s.find(sub)]: the lowest index where [sub] occurs. *)
Fixpoint find (s sub : pystr) : option nat :=
    if startswith s sub then Some 0
    else match s with
         | [] => None
         | _ :: s' => option_map S (find s' sub)
         end.

  (** [s.index(sub)]: as [find], but raises [ValueError]. *)
Definition index (s sub : pystr) : result nat :=
    match find s sub with
    | Some i => Ok i
    | None => Raise (ValueError "substring not found")
    end.

  (** [sub in s] *)
Definition contains (sub s : pystr) : bool :=
    match find s sub with
    | Some _ => true
    | None => false
    end.

  (** [s[a:b]] for non-negative bounds; an empty range when [b <= a]. *)
Definition slice (s : pystr) (a b : nat) : pystr :=
    firstn (b - a) (skipn a s).

  (** [s[:b]] and [s[a:]] *)
Definition slice_to (s : pystr) (b : nat) : pystr := firstn b s.
Definition slice_from (s : pystr) (a : nat) : pystr := skipn a s.

  (** [sep.join(l)] *)
Fixpoint join (sep : pystr) (l : list pystr) : pystr :=
    match l with
    | [] => []
    | [x] => x
    | x :: l' => x ++ sep ++ join sep l'
    end.

  (** [s.split(sep)] for a non-empty [sep] (every call site passes a
      literal).  [split_aux sep s skip] returns the piece under
      construction and the pieces after it; [skip] counts the characters of
      a separator that was recognised and is still being consumed. *)
Fixpoint split_aux (sep s : pystr) (skip : nat) : pystr * list pystr :=
    match s with
    | [] => ([], [])
    | c :: s' =>
        match skip with
        | S k => split_aux sep s' k
        | O =>
            if startswith s sep
            then let (p, ps) := split_aux sep s' (length sep - 1) in
                 ([], p :: ps)
            else let (p, ps) := split_aux sep s' 0 in
                 (c :: p, ps)
        end
    end.

Definition split (s sep : pystr) : list pystr :=
    let (p, ps) := split_aux sep s 0 in p :: ps.

  (** [s.split(sep, 1)]: at most one cut, at the first occurrence. *)
Definition split1 (s sep : pystr) : list pystr :=
    match find s sep with
    | Some i => [firstn i s; skipn (i + length sep) s]
    | None => [s]
    end.

  (** [s.replace(old, new)] for a non-empty [old]: the pieces between the
      occurrences of [old], glued with [new]. *)
Definition replace (s old new : pystr) : pystr :=
    join new (split s old).

  (** [c.isspace()]: the characters [str.split()] and [int()] treat as
      white space. *)
Definition isspace (c : char) : bool :=
    ((9 <=? c) && (c <=? 13) || (28 <=? c) && (c <=? 32)
     || (c =? 133) || (c =? 160) || (c =? 5760)
     || (8192 <=? c) && (c <=? 8202)
     || (c =? 8232) || (c =? 8233) || (c =? 8239) || (c =? 8287)
     || (c =? 12288))%N.

Definition push_token (p : pystr) (ps : list pystr) : list pystr :=
    match p with
    | [] => ps
    | _ :: _ => p :: ps
    end.

Fixpoint split_ws_aux (s : pystr) : pystr * list pystr :=
    match s with
    | [] => ([], [])
    | c :: s' =>
        let (p, ps) := split_ws_aux s' in
        if isspace c then ([], push_token p ps) else (c :: p, ps)
    end.

  (** [s.split()]: the maximal runs of non-space characters. *)
Definition split_ws (s : pystr) : list pystr :=
    let (p, ps) := split_ws_aux s in push_token p ps.

  (** [s.strip()] *)
Fixpoint lstrip (s : pystr) : pystr :=
    match s with
    | c :: s' => if isspace c then lstrip s' else s
    | [] => []
    end.

Definition strip (s : pystr) : pystr := rev (lstrip (rev (lstrip s))).

End Str.

(** Truth value of a container: empty is false. *)
Definition truthy {A} (l : list A) : bool :=
  match l with
  | [] => false
  | _ :: _ => true
  end.

(** [l[i]] *)
Definition getitem {A} (l : list A) (i : nat) : result A :=
  match nth_error l i with
  | Some x => Ok x
  | None => Raise (IndexError "list index out of range")
  end.

(** ** Numbers and text *)

Module Num.

Definition digit_of_char (c : char) : option (Decimal.uint -> Decimal.uint) :=
    match c with
    | 48 => Some Decimal.D0 | 49 => Some Decimal.D1 | 50 => Some Decimal.D2
    | 51 => Some Decimal.D3 | 52 => Some Decimal.D4 | 53 => Some Decimal.D5
    | 54 => Some Decimal.D6 | 55 => Some Decimal.D7 | 56 => Some Decimal.D8
    | 57 => Some Decimal.D9
    | _ => None
    end%N.

Fixpoint str_of_uint (d : Decimal.uint) : pystr :=
    match d with
    | Decimal.Nil => []
    | Decimal.D0 d => 48 :: str_of_uint d
    | Decimal.D1 d => 49 :: str_of_uint d
    | Decimal.D2 d => 50 :: str_of_uint d
    | Decimal.D3 d => 51 :: str_of_uint d
    | Decimal.D4 d => 52 :: str_of_uint d
    | Decimal.D5 d => 53 :: str_of_uint d
    | Decimal.D6 d => 54 :: str_of_uint d
    | Decimal.D7 d => 55 :: str_of_uint d
    | Decimal.D8 d => 56 :: str_of_uint d
    | Decimal.D9 d => 57 :: str_of_uint d
    end%N.

  (** [str(n)], that is [f"{n}"], for a natural number and for an integer. *)
Definition str_of_N (n : N) : pystr := str_of_uint (N.to_uint n).

Definition str_of_Z (z : Z) : pystr :=
    match z with
    | Zneg p => 45%N :: str_of_N (Npos p)
    | _ => str_of_N (Z.to_N z)
    end.

Definition str_of_nat (n : nat) : pystr := str_of_N (N.of_nat n).

  (** The digits of an integer literal: decimal digits, with single
      underscores allowed between two digits. *)
Fixpoint digits (s : pystr) (after_digit : bool) : option Decimal.uint :=
    match s with
    | [] => if after_digit then Some Decimal.Nil else None
    | c :: s' =>
        match digit_of_char c with
        | Some D =>
            match digits s' true with
            | Some d => Some (D d)
            | None => None
            end
        | None =>
            if (c =? 95)%N && after_digit then digits s' false else None
        end
    end.

Definition int_error : exn := ValueError "invalid literal for int() with base 10".

Definition magnitude (s : pystr) : result Z :=
    match digits s false with
    | Some d => Ok (Z.of_N (N.of_uint d))
    | None => Raise int_error
    end.

  (** [int(s)] for a text [s], on ASCII digits: surrounding white space is
      dropped, one sign is accepted.  (Decimal digits of other scripts, which
      some interpreters accept as well, raise here.) *)
Definition int_of_str (s : pystr) : result Z :=
    match Str.strip s with
    | 45%N :: t => n <- magnitude t ;; Ok (- n)%Z
    | 43%N :: t => magnitude t
    | t => magnitude t
    end.

End Num.

(** ** UTF-8: [str.encode] and [bytes.decode] *)

Module Utf8.

Definition cont (c : N) (k : N) : N :=
    N.lor 128 (N.land (N.shiftr c (6 * k)) 63).

Definition is_surrogate (c : N) : bool :=
    ((55296 <=? c) && (c <=? 57343))%N.

Definition encode_char (c : char) : result bytes :=
    if (c <? 128)%N then Ok [c]
    else if (c <? 2048)%N then
      Ok [N.lor 192 (N.shiftr c 6); cont c 0]
    else if (c <? 65536)%N then
      if is_surrogate c then Raise UnicodeEncodeError
      else Ok [N.lor 224 (N.shiftr c 12); cont c 1; cont c 0]
    else if (c <? 1114112)%N then
      Ok [N.lor 240 (N.shiftr c 18); cont c 2; cont c 1; cont c 0]
    else Raise UnicodeEncodeError.

  (** [str.encode(s)] *)
Fixpoint encode (s : pystr) : result bytes :=
    match s with
    | [] => Ok []
    | c :: s' =>
        b <- encode_char c ;;
        bs <- encode s' ;;
        Ok (b ++ bs)
    end.

Definition is_cont (b : N) : bool := ((128 <=? b) && (b <=? 191))%N.

Definition payload (b : N) : N := N.land b 63.

  (** [bs.decode("utf-8")], strict: shortest form only, no surrogates,
      nothing above U+10FFFF. *)
Fixpoint decode (bs : bytes) : result pystr :=
    match bs with
    | [] => Ok []
    | b0 :: t0 =>
        if (b0 <? 128)%N then
          s <- decode t0 ;; Ok (b0 :: s)
        else if ((194 <=? b0) && (b0 <=? 223))%N then
          match t0 with
          | b1 :: t1 =>
              if is_cont b1 then
                s <- decode t1 ;;
                Ok (N.lor (N.shiftl (N.land b0 31) 6) (payload b1) :: s)
              else Raise UnicodeDecodeError
          | _ => Raise UnicodeDecodeError
          end
        else if ((224 <=? b0) && (b0 <=? 239))%N then
          match t0 with
          | b1 :: b2 :: t2 =>
              let c := N.lor (N.shiftl (N.land b0 15) 12)
                         (N.lor (N.shiftl (payload b1) 6) (payload b2)) in
              if is_cont b1 && is_cont b2 && (2048 <=? c)%N
                 && negb (is_surrogate c)
              then s <- decode t2 ;; Ok (c :: s)
              else Raise UnicodeDecodeError
          | _ => Raise UnicodeDecodeError
          end
        else if ((240 <=? b0) && (b0 <=? 244))%N then
          match t0 with
          | b1 :: b2 :: b3 :: t3 =>
              let c := N.lor (N.shiftl (N.land b0 7) 18)
                         (N.lor (N.shiftl (payload b1) 12)
                            (N.lor (N.shiftl (payload b2) 6) (payload b3))) in
              if is_cont b1 && is_cont b2 && is_cont b3
                 && (65536 <=? c)%N && (c <? 1114112)%N
              then s <- decode t3 ;; Ok (c :: s)
              else Raise UnicodeDecodeError
          | _ => Raise UnicodeDecodeError
          end
        else Raise UnicodeDecodeError
    end.


End Utf8.

(** ** Dictionaries

    A [dict] keeps its items in insertion order; storing under a key that is
    already present replaces the value where the key stands. *)

Definition dict (V : Type) : Type := list (pystr * V).

Fixpoint dict_set {V} (d : dict V) (k : pystr) (v : V) : dict V :=
  match d with
  | [] => [(k, v)]
  | (k', v') :: d' =>
      if Str.eqb k' k then (k', v) :: d' else (k', v') :: dict_set d' k v
  end.

Fixpoint dict_get {V} (d : dict V) (k : pystr) : option V :=
  match d with
  | [] => None
  | (k', v') :: d' => if Str.eqb k' k then Some v' else dict_get d' k
  end.

(** ** [json.dumps]

    The serializer of the [json] module, for [None], booleans, integers,
    texts, lists and dictionaries with text keys (floating-point numbers are
    left out).  [item_sep] and [key_sep] are the [separators]; the defaults
    are [", "] and [": "]. *)

Module Json.

#[warnings="-register-all"]
Inductive value : Type :=
  | JNone
  | JBool (b : bool)
  | JInt (z : Z)
  | JStr (s : pystr)
  | JList (l : list value)
  | JDict (d : list (pystr * value)).

Definition hex_digit (n : N) : char :=
    (if n <? 10 then 48 + n else 87 + n)%N.

  (** [\uXXXX] *)
Definition u_escape (c : N) : pystr :=
    [92; 117; hex_digit (N.land (N.shiftr c 12) 15);
     hex_digit (N.land (N.shiftr c 8) 15);
     hex_digit (N.land (N.shiftr c 4) 15);
     hex_digit (N.land c 15)]%N.

Definition escape_char (ensure_ascii : bool) (c : char) : pystr :=
    match c with
    | 34 => [92; 34]
    | 92 => [92; 92]
    | 10 => [92; 110]
    | 13 => [92; 114]
    | 9 => [92; 116]
    | 8 => [92; 98]
    | 12 => [92; 102]
    | _ =>
        if c <? 32 then u_escape c
        else if negb ensure_ascii || (c <? 127) then [c]
        else if c <? 65536 then u_escape c
        else
          let v := c - 65536 in
          u_escape (55296 + N.land (N.shiftr v 10) 1023)
          ++ u_escape (56320 + N.land v 1023)
    end%N.

Definition quote (ensure_ascii : bool) (s : pystr) : pystr :=
    34%N :: flat_map (escape_char ensure_ascii) s ++ [34%N].

Section Dumps.
Variable ensure_ascii : bool.
Variables item_sep key_sep : pystr.

Fixpoint dumps_with (v : value) : pystr :=
      match v with
      | JNone => lit "null"
      | JBool true => lit "true"
      | JBool false => lit "false"
      | JInt z => Num.str_of_Z z
      | JStr s => quote ensure_ascii s
      | JList l =>
          lit "[" ++ Str.join item_sep (map dumps_with l) ++ lit "]"
      | JDict d =>
          lit "{"
          ++ Str.join item_sep
               (map (fun kv => quote ensure_ascii (fst kv) ++ key_sep
                               ++ dumps_with (snd kv)) d)
          ++ lit "}"
      end.
End Dumps.

  (** [dumps(obj)], all keyword arguments at their defaults. *)
Definition dumps (d : dict value) : pystr :=
    dumps_with true (lit ", ") (lit ": ") (JDict d).

  (** [dumps(obj, ensure_ascii=False)]; also what a runtime without the
      [ensure_ascii] switch, such as MicroPython, emits for printable
      text. *)
Definition dumps_raw (d : dict value) : pystr :=
    dumps_with false (lit ", ") (lit ": ") (JDict d).

  (** The most compact representation: [separators=(",", ":")]. *)
Definition dumps_compact (d : dict value) : pystr :=
    dumps_with true (lit ",") (lit ":") (JDict d).

End Json.

(** * http.py *)

(** [url = namedtuple("url", "scheme netloc path")].  [netloc] is the triple
    [(netloc_abs, netloc_host, netloc_port)]; the port is the text found in
    the URL, or the integer 80. *)

Inductive str_or_int : Type :=
| AStr (s : pystr)
| AnInt (z : Z).

Record url : Type := mk_url
  { scheme : pystr;
    netloc : pystr * pystr * str_or_int;
    path : pystr }.

Definition netloc_0 (u : url) : pystr := fst (fst (netloc u)).
Definition netloc_1 (u : url) : pystr := snd (fst (netloc u)).
Definition netloc_2 (u : url) : str_or_int := snd (netloc u).

(** [int(x)] for a text or an integer. *)
Definition int (x : str_or_int) : result Z :=
  match x with
  | AStr s => Num.int_of_str s
  | AnInt z => Ok z
  end.

(** [status_line = namedtuple("status_line", "http_version status_code reason_phrase")] *)
Record status_line : Type := mk_status_line
  { http_version : pystr;
    status_code : pystr;
    reason_phrase : pystr }.

Definition HTTP_VERSION : pystr := lit "HTTP/1.1".
Definition HTTP_POST : pystr := lit "POST".
Definition HTTP_GET : pystr := lit "GET".

(** ** class HTTPResponse *)

Module HTTPResponse.

Record t : Type := new { raw_http_response : pystr }.

Definition _status_line (self : t) : result status_line :=
  status_line_end_idx <- Str.index (raw_http_response self) CRLF ;;
  let status_line_raw :=
    Str.split_ws (Str.slice_to (raw_http_response self) status_line_end_idx) in
  v <- getitem status_line_raw 0 ;;
  c <- getitem status_line_raw 1 ;;
  r <- getitem status_line_raw 2 ;;
  Ok (mk_status_line v c r).

Definition status_code (self : t) : result Z :=
  sl <- _status_line self ;;
  Num.int_of_str (status_code sl).

Definition text (self : t) : result pystr :=
  text_start_idx <- Str.index (raw_http_response self) CRLFCRLF ;;
  Ok (Str.slice_from (raw_http_response self) (text_start_idx + 4)).

(** The dictionary comprehension of [headers]: every line is cut at its
    first colon; the list of parts is never empty, so the filter lets every
    line through, and both [key_value[0]] and [key_value[1]] are read. *)
Fixpoint headers_of_lines (lines : list pystr) (d : dict pystr)
  : result (dict pystr) :=
  match lines with
  | [] => Ok d
  | header :: rest =>
      let key_value := Str.split1 header [COLON] in
      if truthy key_value then
        k <- getitem key_value 0 ;;
        v <- getitem key_value 1 ;;
        headers_of_lines rest (dict_set d k v)
      else headers_of_lines rest d
  end.

Definition header_block (self : t) : result pystr :=
  header_start_idx <- Str.index (raw_http_response self) CRLF ;;
  header_end_idx <- Str.index (raw_http_response self) CRLFCRLF ;;
  Ok (Str.replace
        (Str.slice (raw_http_response self) (header_start_idx + 2) header_end_idx)
        [SP] []).

Definition headers (self : t) : result (dict pystr) :=
  http_headers <- header_block self ;;
  headers_of_lines (Str.split http_headers CRLF) [].

End HTTPResponse.

Definition sample_response : pystr :=
  lit "HTTP/1.1 200 OK" ++ CRLF ++ lit "Content-Type: text/plain" ++ CRLFCRLF
  ++ lit "Hello".

(** ** The socket

    One stream socket is created per request.  The world records what the
    peer will do (whether [connect] and [send] go through, and what every
    [recv] returns) and the trace of the calls made on the socket.  A failing
    socket call raises [OSError]; time-outs are [OSError]s. *)

Module Socket.

Inductive event : Type :=
| Create
| SetTimeout (timeout : float)
| Connect (host : pystr) (port : Z)
| Send (data : bytes)
| Recv (bufsize : nat)
| Close.

Inductive recv_step : Type :=
| Data (data : bytes)
| Broken (msg : string).

Record world : Type := mk_world
  { connect_error : pystr -> Z -> option string;
    send_error : bytes -> option string;
    incoming : list recv_step;
    trace : list event }.

Definition log (e : event) (w : world) : world :=
  mk_world (connect_error w) (send_error w) (incoming w) (trace w ++ [e]).

Definition consume (rest : list recv_step) (w : world) : world :=
  mk_world (connect_error w) (send_error w) rest (trace w).

Definition is_close (e : event) : bool :=
  match e with
  | Close => true
  | _ => false
  end.

Definition is_create (e : event) : bool :=
  match e with
  | Create => true
  | _ => false
  end.

(** How many times the socket was closed, and how many sockets were
    created. *)
Definition closes (w : world) : nat := length (filter is_close (trace w)).
Definition creations (w : world) : nat := length (filter is_create (trace w)).

End Socket.

(** Computations on the socket: a result and the world after it.  When a
    call raises, the world is the one reached at that point. *)
Definition IO (A : Type) : Type := Socket.world -> result A * Socket.world.

Definition ret {A} (a : A) : IO A := fun w => (Ok a, w).

Definition lift {A} (r : result A) : IO A := fun w => (r, w).

Definition bindIO {A B} (m : IO A) (k : A -> IO B) : IO B :=
  fun w =>
    match m w with
    | (Ok a, w') => k a w'
    | (Raise e, w') => (Raise e, w')
    end.

Notation "x <~ m ;; k" := (bindIO m (fun x => k))
  (at level 61, m at next level, right associativity) : py_scope.
Notation "m ;;; k" := (bindIO m (fun _ => k))
  (at level 61, right associativity) : py_scope.

Module SocketOps.
Import Socket.

(** [socket(AF_INET, SOCK_STREAM)] *)
Definition socket : IO unit := fun w => (Ok tt, log Create w).

Definition settimeout (timeout : float) : IO unit :=
  fun w => (Ok tt, log (SetTimeout timeout) w).

Definition connect (host : pystr) (port : Z) : IO unit :=
  fun w =>
    match connect_error w host port with
    | None => (Ok tt, log (Connect host port) w)
    | Some msg => (Raise (OSError msg), log (Connect host port) w)
    end.

Definition send (data : bytes) : IO unit :=
  fun w =>
    match send_error w data with
    | None => (Ok tt, log (Send data) w)
    | Some msg => (Raise (OSError msg), log (Send data) w)
    end.

Definition close : IO unit := fun w => (Ok tt, log Close w).

(** The [while True] loop of [get_http_response], by recursion on what the
    peer still has to say: one [recv(1024)] per step; an empty read (also
    once the peer has nothing left and has closed) ends the loop. *)
Fixpoint recv_loop (script : list recv_step) (response_buffer : bytes)
  : IO bytes :=
  fun w =>
    match script with
    | [] => (Ok response_buffer, log (Recv 1024) (consume [] w))
    | Broken msg :: rest =>
        (Raise (OSError msg), log (Recv 1024) (consume rest w))
    | Data data :: rest =>
        let w' := log (Recv 1024) (consume rest w) in
        if truthy data
        then recv_loop rest (response_buffer ++ data) w'
        else (Ok response_buffer, w')
    end.

End SocketOps.

(** ** class HTTPRequest *)

Module HTTPRequest.

Local Abbreviation url_tuple := url.

Record t : Type := mk
  { method : pystr;
    url : pystr;
    data : dict pystr;
    json : dict Json.value;
    headers : dict pystr;
    timeout : float;
    json_body : bool }.

Definition _parse_url (self : t) : result url_tuple :=
  if negb (Str.startswith (url self) (lit "http"))
  then Raise (ValueError "Invalid URL")
  else
    let delimiter := [SLASH] in
    let url_parts := Str.split (url self) delimiter in
    p0 <- getitem url_parts 0 ;;
    let scheme := Str.replace p0 [COLON] [] in
    netloc_abs <- getitem url_parts 2 ;;
    p2 <- getitem url_parts 2 ;;
    '(netloc_host, netloc_port) <-
       (if Str.contains [COLON] p2
        then
          let netloc_parts := Str.split netloc_abs [COLON] in
          h <- getitem netloc_parts 0 ;;
          p <- getitem netloc_parts 1 ;;
          Ok (h, AStr p)
        else
          h <- getitem url_parts 2 ;;
          Ok (h, AnInt 80)) ;;
    let path := concat (map (fun path => SLASH :: path) (skipn 3 url_parts)) in
    Ok (mk_url scheme (netloc_abs, netloc_host, netloc_port) path).

(** The loop of [_parse_http_data]: [key=value], with [&] after every item
    but the last. *)
Fixpoint data_items (items : list (pystr * pystr)) (i len : Z)
  (request_data : pystr) : pystr :=
  match items with
  | [] => request_data
  | (key, data) :: rest =>
      let fmt := key ++ lit "=" ++ data in
      let fmt := if negb (i =? len - 1)%Z then fmt ++ lit "&" else fmt in
      data_items rest (i + 1)%Z len (request_data ++ fmt)
  end.

Definition _parse_http_data (self : t) : pystr :=
  data_items (data self) 0 (Z.of_nat (length (data self))) [].

Section Serializer.

(** [dumps] of the interpreter's [json] module. *)
Variable dumps : dict Json.value -> pystr.

Definition _parse_http_json (self : t) : pystr := dumps (json self).

Definition content_length (self : t) (json : bool) : nat :=
  if negb json then length (_parse_http_data self)
  else length (_parse_http_json self).

Fixpoint header_lines (items : list (pystr * pystr)) (http_headers : pystr)
  : pystr :=
  match items with
  | [] => http_headers
  | (header_key, header_value) :: rest =>
      header_lines rest
        (http_headers ++ header_key ++ lit ": " ++ header_value ++ CRLF)
  end.

Definition _parse_http_headers (self : t) : result pystr :=
  let http_headers := [] in
  u <- _parse_url self ;;
  let dest_host := netloc_0 u in
  let http_headers := http_headers ++ lit "Host: " ++ dest_host ++ CRLF in
  let http_headers :=
    if Str.eqb (method self) HTTP_POST
    then http_headers ++ lit "Content-Length: "
         ++ Num.str_of_nat (content_length self (json_body self)) ++ CRLF
    else http_headers in
  Ok (header_lines (headers self) http_headers).

Definition construct_http_request (self : t) : result pystr :=
  parsed_url <- _parse_url self ;;
  http_headers <- _parse_http_headers self ;;
  let body_data := _parse_http_json self in
  let body_data :=
    if negb (truthy (json self)) then _parse_http_data self else body_data in
  if Str.eqb (method self) HTTP_GET
  then
    Ok (method self ++ lit " " ++ path parsed_url
        ++ (if truthy (data self) && negb (truthy (json self))
            then lit "?" ++ body_data else [])
        ++ lit " " ++ HTTP_VERSION ++ CRLF ++ http_headers ++ CRLF)
  else
    Ok (method self ++ lit " " ++ path parsed_url ++ lit " " ++ HTTP_VERSION
        ++ CRLF ++ http_headers ++ CRLF ++ body_data).

(** [__init__]: the fields, then the socket is created and connected. *)
Definition __init__ (method url : pystr) (data : dict pystr)
  (json : dict Json.value) (headers : dict pystr) (timeout : float) : IO t :=
  let self := mk method url data json headers timeout
                (if truthy json then true else false) in
  SocketOps.socket ;;;
  SocketOps.settimeout timeout ;;;
  u1 <~ lift (_parse_url self) ;;
  let dest_host := netloc_1 u1 in
  u2 <~ lift (_parse_url self) ;;
  let dest_port := netloc_2 u2 in
  port <~ lift (int dest_port) ;;
  SocketOps.connect dest_host port ;;;
  ret self.

Definition send_http_request (self : t) : IO unit :=
  request <~ lift (construct_http_request self) ;;
  http_request <~ lift (Utf8.encode request) ;;
  SocketOps.send http_request.

Definition get_http_response (self : t) : IO HTTPResponse.t :=
  fun w =>
    (response_buffer <~ SocketOps.recv_loop (Socket.incoming w) [] ;;
     SocketOps.close ;;;
     raw <~ lift (Utf8.decode response_buffer) ;;
     ret (HTTPResponse.new raw)) w.

End Serializer.

End HTTPRequest.

(** ** [get] and [post] *)

Section Client.

Variable dumps : dict Json.value -> pystr.


Definition post (url : pystr) (data : dict pystr) (json : dict Json.value)
  (headers : dict pystr) (timeout : float) : IO HTTPResponse.t :=
  http_request_instance <~
    HTTPRequest.__init__ (lit "POST") url data json headers timeout ;;
  HTTPRequest.send_http_request dumps http_request_instance ;;;
  HTTPRequest.get_http_response http_request_instance.

End Client.

(** * Vocabulary of the statements, and sample data *)

(** [sub] occurs in [s]. *)
Definition occurs (sub s : pystr) : Prop :=
  exists pre post, s = pre ++ sub ++ post.

(** The exceptions the module raises. *)
Definition index_error : exn := IndexError "list index out of range".
Definition not_found : exn := ValueError "substring not found".


Definition is_digit (c : char) : Prop := (48 <= c <= 57)%N.

Definition invalid_url : exn := ValueError "Invalid URL".

(** [/seg1/seg2/...]: every segment with a slash before it. *)
Definition slash_join (segs : list pystr) : pystr :=
  concat (map (cons SLASH) segs).

(** The optional [:port] of an authority, and the port it stands for. *)
Definition port_suffix (port : option N) : pystr :=
  match port with
  | Some p => COLON :: Num.str_of_N p
  | None => []
  end.

Definition port_value (port : option N) : Z :=
  match port with
  | Some p => Z.of_N p
  | None => 80%Z
  end.

(** The request objects of [get(u)] and of [post(u, json=json)]. *)
Definition GET (u : pystr) : HTTPRequest.t :=
  HTTPRequest.mk HTTP_GET u [] [] [] (QArith_base.Qmake 3 1) false.

(** The leading token of a URL: the text before the first [://]. *)
Definition leading_token (u : pystr) : pystr :=
  match Str.find u (lit "://") with
  | Some i => firstn i u
  | None => u
  end.

Definition POST (u : pystr) (json : dict Json.value) : HTTPRequest.t :=
  HTTPRequest.mk HTTP_POST u [] json [] (QArith_base.Qmake 3 1)
    (if truthy json then true else false).

Definition quoted (s : pystr) : pystr := 34%N :: s ++ [34%N].

(** The mapping [{"x": 1}]. *)
Definition x1 : dict Json.value := [(lit "x", Json.JInt 1)].




(** A peer that answers and closes. *)
Definition answering : Socket.world :=
  Socket.mk_world (fun _ _ => None) (fun _ => None)
    [Socket.Data (lit "HTTP/1.1 200 OK" ++ CRLF);
     Socket.Data (lit "Content-Type: text/plain" ++ CRLFCRLF ++ lit "Hello")]
    [].

(** One item of a form-encoded text, and one line of a header block. *)
Definition form_pair (kv : pystr * pystr) : pystr :=
  fst kv ++ lit "=" ++ snd kv.

Definition header_line (kv : pystr * pystr) : pystr :=
  fst kv ++ lit ": " ++ snd kv ++ CRLF.

(** How many slashes a text has. *)
Definition slashes (s : pystr) : nat := count_occ N.eq_dec s SLASH.


(** config.py and main.py: the collector, and [send_data], which posts the
    readings with every other argument of [post] at its default. *)
Definition DESTINATION_URL : pystr := lit "http://172.16.153.150/data".

Definition send_data (dumps : dict Json.value -> pystr) (url : pystr)
  (http_body_json_data : dict Json.value) : IO HTTPResponse.t :=
  post dumps url [] http_body_json_data [] (QArith_base.Qmake 3 1).

(** A text with its spaces taken out, and a header line as a server
    writes it. *)
Definition unspace (s : pystr) : pystr :=
  filter (fun c => negb (c =? SP)%N) s.

Definition response_line (kv : pystr * pystr) : pystr :=
  fst kv ++ lit ": " ++ snd kv.

(** * Sanity checks: the model on concrete inputs *)

Example split_slash :
  Str.split (lit "http://h:9000/p") [SLASH]
  = [lit "http:"; []; lit "h:9000"; lit "p"].
Proof. reflexivity. Qed.

Example split_crlf :
  Str.split (lit "a" ++ CRLF ++ lit "b" ++ CRLF) CRLF = [lit "a"; lit "b"; []].
Proof. reflexivity. Qed.

Example split_empty : Str.split [] CRLF = [[]].
Proof. reflexivity. Qed.

Example split_ws_ex :
  Str.split_ws (lit "  HTTP/1.1   200 OK ") = [lit "HTTP/1.1"; lit "200"; lit "OK"].
Proof. reflexivity. Qed.

Example replace_ex :
  Str.replace (lit "a b  c") [SP] [] = lit "abc".
Proof. reflexivity. Qed.

Example int_9000 : Num.int_of_str (lit " 9000 ") = Ok 9000%Z.
Proof. reflexivity. Qed.

Example int_underscore : Num.int_of_str (lit "1_000") = Ok 1000%Z.
Proof. reflexivity. Qed.

Example int_bad : Num.int_of_str (lit "80a") = Raise Num.int_error.
Proof. reflexivity. Qed.

Example str_of_80 : Num.str_of_nat 80 = lit "80".
Proof. reflexivity. Qed.

Example encode_e_acute : Utf8.encode [233%N] = Ok [195%N; 169%N].
Proof. reflexivity. Qed.

Example decode_euro : Utf8.decode [226; 130; 172]%N = Ok [8364%N].
Proof. reflexivity. Qed.

Example decode_overlong : Utf8.decode [192; 128]%N = Raise UnicodeDecodeError.
Proof. reflexivity. Qed.

Example dumps_x1 :
  Json.dumps [(lit "x", Json.JInt 1)] = lit "{" ++ [34%N] ++ lit "x" ++ [34%N] ++ lit ": 1}".
Proof. reflexivity. Qed.

Example dumps_compact_x1 :
  Json.dumps_compact [(lit "x", Json.JInt 1)]
  = lit "{" ++ [34%N] ++ lit "x" ++ [34%N] ++ lit ":1}".
Proof. reflexivity. Qed.

Example dumps_escape :
  Json.dumps [(lit "k", Json.JStr [233%N])]
  = lit "{" ++ [34%N] ++ lit "k" ++ [34%N] ++ lit ": " ++ [34%N]
    ++ lit "\u00e9" ++ [34%N] ++ lit "}".
Proof. reflexivity. Qed.

Example sample_status :
  HTTPResponse.status_code (HTTPResponse.new sample_response) = Ok 200%Z.
Proof. reflexivity. Qed.

Example sample_headers :
  HTTPResponse.headers (HTTPResponse.new sample_response)
  = Ok [(lit "Content-Type", lit "text/plain")].
Proof. reflexivity. Qed.

Example sample_text :
  HTTPResponse.text (HTTPResponse.new sample_response) = Ok (lit "Hello").
Proof. reflexivity. Qed.

(** * Facts about the [str] methods *)

Lemma eqb_eq (a b : pystr) : Str.eqb a b = true <-> a = b.
Proof.
  revert b; induction a as [|x a IH]; intros [|y b]; simpl;
    try (split; [discriminate | discriminate]); try tauto.
  rewrite andb_true_iff, N.eqb_eq, IH.
  split; [intros [-> ->]; reflexivity | intros H; inversion H; auto].
Qed.

Lemma eqb_refl (a : pystr) : Str.eqb a a = true.
Proof. apply eqb_eq; reflexivity. Qed.

Lemma startswith_iff (s p : pystr) :
  Str.startswith s p = true <-> exists r, s = p ++ r.
Proof.
  revert s; induction p as [|y p IH]; intros s; simpl.
  - split; [intros _; exists s; reflexivity | reflexivity].
  - destruct s as [|x s].
    + split; [discriminate | intros [r H]; discriminate].
    + rewrite andb_true_iff, N.eqb_eq, IH. split.
      * intros [-> [r ->]]. exists r; reflexivity.
      * intros [r H]. inversion H; subst. split; [reflexivity | exists r; reflexivity].
Qed.

Lemma startswith_app (p r : pystr) : Str.startswith (p ++ r) p = true.
Proof. apply startswith_iff; exists r; reflexivity. Qed.

Lemma find_here (s sub : pystr) :
  Str.startswith s sub = true -> Str.find s sub = Some 0.
Proof. intros H. destruct s; simpl; rewrite H; reflexivity. Qed.

Lemma find_later (c : char) (s sub : pystr) :
  Str.startswith (c :: s) sub = false ->
  Str.find (c :: s) sub = option_map S (Str.find s sub).
Proof. intros H. simpl. rewrite H. reflexivity. Qed.

Lemma find_some (s sub : pystr) (i : nat) :
  Str.find s sub = Some i ->
  exists post, s = firstn i s ++ sub ++ post /\ i <= length s.
Proof.
  revert i; induction s as [|c s IH]; intros i; simpl.
  - destruct (Str.startswith [] sub) eqn:E; [|discriminate].
    intros H; inversion H; subst.
    apply startswith_iff in E as [r E]. exists r. simpl. split; [exact E | lia].
  - destruct (Str.startswith (c :: s) sub) eqn:E.
    + intros H; inversion H; subst.
      apply startswith_iff in E as [r E]. exists r. simpl. split; [exact E | lia].
    + destruct (Str.find s sub) as [j|] eqn:F; simpl; [|discriminate].
      intros H; inversion H; subst.
      destruct (IH j eq_refl) as [post [Hs Hj]].
      exists post. simpl. split; [f_equal; exact Hs | lia].
Qed.

Lemma find_occurs (s sub : pystr) (i : nat) :
  Str.find s sub = Some i -> occurs sub s.
Proof.
  intros H. destruct (find_some _ _ _ H) as [post [E _]].
  exists (firstn i s), post. exact E.
Qed.

Lemma find_none (s sub : pystr) :
  Str.find s sub = None <-> ~ occurs sub s.
Proof.
  split.
  - intros F [pre [post E]]. subst s. revert F.
    induction pre as [|c pre IH].
    + simpl app. rewrite (find_here _ _ (startswith_app sub post)). discriminate.
    + simpl app.
      destruct (Str.startswith (c :: pre ++ sub ++ post) sub) eqn:E.
      * rewrite (find_here _ _ E). discriminate.
      * rewrite (find_later _ _ _ E).
        destruct (Str.find (pre ++ sub ++ post) sub); [discriminate|].
        intros _. apply IH. reflexivity.
  - intros H. destruct (Str.find s sub) as [i|] eqn:F; [|reflexivity].
    exfalso. apply H. eapply find_occurs; eauto.
Qed.

Lemma index_raises (s sub : pystr) :
  ~ occurs sub s -> Str.index s sub = Raise (ValueError "substring not found").
Proof.
  intros H. unfold Str.index. apply find_none in H. rewrite H. reflexivity.
Qed.

Lemma occurs_cons (sub s : pystr) (c : char) :
  occurs sub s -> occurs sub (c :: s).
Proof.
  intros [pre [post E]]. exists (c :: pre), post. simpl. f_equal. exact E.
Qed.

(** The first line break of [line ++ sub ++ rest], when [sub] begins with
    CRLF and [line] has none, is at the end of [line]. *)
Lemma find_after_line (line sub' rest : pystr) :
  ~ occurs CRLF line ->
  Str.find (line ++ (CRLF ++ sub') ++ rest) (CRLF ++ sub') = Some (length line).
Proof.
  induction line as [|c line IH]; intros H.
  - change ([] ++ (CRLF ++ sub') ++ rest) with ((CRLF ++ sub') ++ rest).
    apply find_here, startswith_app.
  - change ((c :: line) ++ (CRLF ++ sub') ++ rest)
      with (c :: line ++ (CRLF ++ sub') ++ rest).
    rewrite find_later.
    + rewrite IH; [reflexivity|].
      intros O. apply H. apply occurs_cons. exact O.
    + change (CRLF ++ sub') with (CR :: LF :: sub').
      cbn [Str.startswith].
      destruct (N.eqb_spec c CR) as [->|]; [|reflexivity].
      destruct line as [|d line]; [reflexivity|].
      cbn [app]. destruct (N.eqb_spec d LF) as [->|]; [|reflexivity].
      exfalso. apply H. exists [], line. reflexivity.
Qed.

Lemma find_line_break (line rest : pystr) :
  ~ occurs CRLF line ->
  Str.find (line ++ CRLF ++ rest) CRLF = Some (length line).
Proof.
  intros H. exact (find_after_line line [] rest H).
Qed.

Lemma find_boundary (line rest : pystr) :
  ~ occurs CRLF line ->
  Str.find (line ++ CRLFCRLF ++ rest) CRLFCRLF = Some (length line).
Proof.
  intros H. exact (find_after_line line CRLF rest H).
Qed.

(** * The response parser *)

Lemma firstn_line (line rest : pystr) :
  firstn (length line) (line ++ rest) = line.
Proof.
  rewrite firstn_app, Nat.sub_diag, firstn_all. simpl. apply app_nil_r.
Qed.

Lemma status_line_tokens (line rest : pystr) :
  ~ occurs CRLF line ->
  HTTPResponse._status_line (HTTPResponse.new (line ++ CRLF ++ rest))
  = (let status_line_raw := Str.split_ws line in
     v <- getitem status_line_raw 0 ;;
     c <- getitem status_line_raw 1 ;;
     r <- getitem status_line_raw 2 ;;
     Ok (mk_status_line v c r)).
Proof.
  intros H. unfold HTTPResponse._status_line, Str.index, Str.slice_to.
  cbn [HTTPResponse.raw_http_response].
  rewrite (find_line_break line rest H). cbn [bind].
  rewrite firstn_line. reflexivity.
Qed.

(** C8. A response text without the sequence CR LF CR LF has no body and no
    header dictionary: reading [text] raises, and so does reading [headers]
    ([str.index] raises [ValueError] in both). *)
Theorem no_boundary_no_body_no_headers (raw : pystr) :
  ~ occurs CRLFCRLF raw ->
  HTTPResponse.text (HTTPResponse.new raw) = Raise not_found
  /\ HTTPResponse.headers (HTTPResponse.new raw) = Raise not_found.
Proof.
  intros H. split.
  - unfold HTTPResponse.text. cbn [HTTPResponse.raw_http_response].
    rewrite (index_raises _ _ H). reflexivity.
  - unfold HTTPResponse.headers, HTTPResponse.header_block.
    cbn [HTTPResponse.raw_http_response].
    destruct (Str.index raw CRLF) as [i|e] eqn:E.
    + cbn [bind]. rewrite (index_raises _ _ H). reflexivity.
    + cbn [bind]. unfold Str.index in E.
      destruct (Str.find raw CRLF); [discriminate|].
      inversion E; reflexivity.
Qed.

Lemma no_boundary_no_body_no_headers_witness :
  let raw := lit "HTTP/1.1 200 OK" ++ CRLF ++ lit "Content-Type: text/plain" ++ CRLF in
  ~ occurs CRLFCRLF raw
  /\ HTTPResponse.text (HTTPResponse.new raw) = Raise not_found
  /\ HTTPResponse.headers (HTTPResponse.new raw) = Raise not_found.
Proof.
  intros raw.
  assert (H : ~ occurs CRLFCRLF raw) by (apply find_none; reflexivity).
  split; [exact H | exact (no_boundary_no_body_no_headers raw H)].
Defined.

(** C9. When the status line (the text before the first CR LF) has fewer
    than three white-space separated tokens, reading [status_code] raises
    [IndexError]: the three fields of the status line are read before the
    code is converted. *)
Theorem short_status_line_raises (line rest : pystr) :
  ~ occurs CRLF line ->
  length (Str.split_ws line) < 3 ->
  HTTPResponse.status_code (HTTPResponse.new (line ++ CRLF ++ rest))
  = Raise index_error.
Proof.
  intros H Hlen. unfold HTTPResponse.status_code.
  rewrite (status_line_tokens line rest H). cbv zeta.
  destruct (Str.split_ws line) as [|a [|b [|c l]]]; cbn in Hlen |- *;
    try reflexivity.
  lia.
Qed.

Lemma short_status_line_raises_witness :
  let line := lit "HTTP/1.1 200" in
  let rest := lit "Content-Type: text/plain" ++ CRLFCRLF ++ lit "Hello" in
  Str.split_ws line = [lit "HTTP/1.1"; lit "200"]
  /\ HTTPResponse.status_code (HTTPResponse.new (line ++ CRLF ++ rest))
     = Raise index_error.
Proof.
  intros line rest. split; [reflexivity|].
  apply (short_status_line_raises line rest).
  - apply find_none. reflexivity.
  - simpl. lia.
Defined.

(** C10. When the first CR LF is directly followed by another CR LF (a
    status line, then an empty header block), reading [headers] raises
    [IndexError]: the empty block still yields one empty line, which has no
    colon, and its missing second part is read. *)
Theorem empty_header_block_raises (line body : pystr) :
  ~ occurs CRLF line ->
  HTTPResponse.headers (HTTPResponse.new (line ++ CRLFCRLF ++ body))
  = Raise index_error.
Proof.
  intros H. unfold HTTPResponse.headers, HTTPResponse.header_block, Str.index.
  cbn [HTTPResponse.raw_http_response].
  rewrite (find_boundary line body H).
  change (line ++ CRLFCRLF ++ body) with (line ++ CRLF ++ (CRLF ++ body)).
  rewrite (find_line_break line (CRLF ++ body) H).
  cbn [bind]. unfold Str.slice.
  replace (length line - (length line + 2)) with 0 by lia.
  reflexivity.
Qed.

Lemma empty_header_block_raises_witness :
  HTTPResponse.headers
    (HTTPResponse.new (lit "HTTP/1.1 200 OK" ++ CRLFCRLF ++ lit "Hello"))
  = Raise index_error.
Proof.
  apply (empty_header_block_raises (lit "HTTP/1.1 200 OK") (lit "Hello")).
  apply find_none. reflexivity.
Defined.

(** ** Splitting *)



Lemma split_nonempty (s sep : pystr) : Str.split s sep <> [].
Proof.
  unfold Str.split. destruct (Str.split_aux sep s 0). discriminate.
Qed.

Lemma startswith_single (x c : char) (s : pystr) :
  Str.startswith (x :: s) [c] = N.eqb x c.
Proof. simpl. apply andb_true_r. Qed.

(** Splitting at a single character. *)
Lemma split_aux_single (c : char) (s : pystr) :
  forall p ps,
    Str.split_aux [c] s 0 = (p, ps) ->
    Forall (fun q => ~ In c q) (p :: ps).
Proof.
  induction s as [|x s IH]; intros p ps E.
  - inversion E; subst. constructor; [intros []|constructor].
  - cbn [Str.split_aux] in E. rewrite startswith_single in E.
    change (length [c] - 1) with 0 in E.
    destruct (Str.split_aux [c] s 0) as [p' ps'] eqn:E'.
    specialize (IH _ _ eq_refl).
    destruct (N.eqb_spec x c) as [->|Hx]; inversion E; subst.
    + constructor; [intros []|exact IH].
    + inversion IH; subst. constructor; [|assumption].
      intros [H|H]; [congruence|contradiction].
Qed.


Lemma split_single_app (c : char) (a rest : pystr) :
  ~ In c a ->
  Str.split (a ++ c :: rest) [c] = a :: Str.split rest [c].
Proof.
  unfold Str.split. induction a as [|x a IH]; intros H.
  - cbn [app Str.split_aux]. rewrite startswith_single, N.eqb_refl.
    change (length [c] - 1) with 0.
    destruct (Str.split_aux [c] rest 0). reflexivity.
  - cbn [app Str.split_aux]. rewrite startswith_single.
    destruct (N.eqb_spec x c) as [->|Hx]; [exfalso; apply H; left; reflexivity|].
    assert (Ha : ~ In c a) by (intros Hc; apply H; right; exact Hc).
    specialize (IH Ha).
    destruct (Str.split_aux [c] (a ++ c :: rest) 0) as [p ps].
    destruct (Str.split_aux [c] rest 0) as [p' ps'].
    inversion IH; subst. reflexivity.
Qed.

Lemma split_single_whole (c : char) (a : pystr) :
  ~ In c a -> Str.split a [c] = [a].
Proof.
  unfold Str.split. induction a as [|x a IH]; intros H; [reflexivity|].
  cbn [Str.split_aux]. rewrite startswith_single.
  destruct (N.eqb_spec x c) as [->|Hx]; [exfalso; apply H; left; reflexivity|].
  assert (Ha : ~ In c a) by (intros Hc; apply H; right; exact Hc).
  specialize (IH Ha).
  destruct (Str.split_aux [c] a 0) as [p ps].
  inversion IH; subst. reflexivity.
Qed.

(** The pieces of [a/seg1/seg2/...]. *)
Lemma split_segments (c : char) (segs : list pystr) :
  forall a,
    ~ In c a ->
    Forall (fun seg => ~ In c seg) segs ->
    Str.split (a ++ concat (map (cons c) segs)) [c] = a :: segs.
Proof.
  induction segs as [|seg segs IH]; intros a Ha Hs.
  - simpl. rewrite app_nil_r. apply split_single_whole. exact Ha.
  - cbn [map concat]. inversion Hs; subst.
    change ((c :: seg) ++ concat (map (cons c) segs))
      with (c :: (seg ++ concat (map (cons c) segs))).
    rewrite split_single_app by exact Ha.
    rewrite IH by assumption. reflexivity.
Qed.

Lemma join_empty (l : list pystr) : Str.join [] l = concat l.
Proof.
  induction l as [|x [|y l] IH]; [reflexivity | simpl; symmetry; apply app_nil_r |].
  change (Str.join [] (x :: y :: l)) with (x ++ [] ++ Str.join [] (y :: l)).
  rewrite IH. reflexivity.
Qed.


Lemma find_single_first (c : char) (s : pystr) :
  forall i, Str.find s [c] = Some i -> ~ In c (firstn i s).
Proof.
  induction s as [|x s IH]; intros i H.
  - simpl in H. discriminate.
  - cbn [Str.find] in H. rewrite startswith_single in H.
    destruct (N.eqb_spec x c) as [->|Hx].
    + inversion H; subst. intros [].
    + destruct (Str.find s [c]) as [j|] eqn:F; [|discriminate].
      inversion H; subst. cbn [firstn]. intros [E|E]; [congruence|].
      exact (IH j eq_refl E).
Qed.

Lemma contains_single (c : char) (s : pystr) :
  Str.contains [c] s = true <-> In c s.
Proof.
  unfold Str.contains. split.
  - destruct (Str.find s [c]) as [i|] eqn:F; [|discriminate].
    intros _. destruct (find_occurs _ _ _ F) as [pre [post E]].
    rewrite E. apply in_or_app. right. left. reflexivity.
  - intros H. apply in_split in H as [pre [post E]].
    destruct (Str.find s [c]) eqn:F; [reflexivity|].
    exfalso. apply find_none in F. apply F. exists pre, post. exact E.
Qed.

(** [header.split(":", 1)] with two parts: the key has no colon and the
    line is key, colon, value. *)
Lemma split1_two (c : char) (line k v : pystr) :
  Str.split1 line [c] = [k; v] ->
  line = k ++ [c] ++ v /\ ~ In c k.
Proof.
  unfold Str.split1. destruct (Str.find line [c]) as [i|] eqn:F; [|discriminate].
  intros H. inversion H; subst. split.
  - destruct (find_some _ _ _ F) as [post [E Hi]].
    rewrite E at 1. do 2 f_equal.
    rewrite E at 1. rewrite app_assoc, skipn_app.
    rewrite length_app, length_firstn, Nat.min_l by exact Hi. cbn [length].
    rewrite Nat.sub_diag. cbn [skipn].
    rewrite skipn_all2; [reflexivity|].
    rewrite length_app, length_firstn, Nat.min_l by exact Hi. simpl. lia.
  - exact (find_single_first c line i F).
Qed.

(** ** The header dictionary *)






(** * Numbers written and read back *)

Lemma str_of_uint_digits (d : Decimal.uint) :
  Forall is_digit (Num.str_of_uint d).
Proof.
  induction d; simpl; constructor; try assumption; unfold is_digit; lia.
Qed.

Lemma digits_str_of_uint (d : Decimal.uint) :
  Num.digits (Num.str_of_uint d) true = Some d.
Proof.
  induction d; simpl; try reflexivity; rewrite IHd; reflexivity.
Qed.

Lemma digits_first (d : Decimal.uint) :
  d <> Decimal.Nil -> Num.digits (Num.str_of_uint d) false = Some d.
Proof.
  destruct d; intros H; [congruence| ..]; simpl;
    rewrite digits_str_of_uint; reflexivity.
Qed.

Lemma digit_not_space (c : char) : is_digit c -> Str.isspace c = false.
Proof.
  unfold is_digit, Str.isspace. intros H.
  repeat (apply orb_false_iff; split);
    try (apply andb_false_iff);
    try (apply N.eqb_neq; lia);
    try (left; apply N.leb_gt; lia);
    try (right; apply N.leb_gt; lia).
Qed.

Lemma lstrip_id (s : pystr) :
  Forall (fun c => Str.isspace c = false) s -> Str.lstrip s = s.
Proof.
  intros H. destruct s as [|c s]; [reflexivity|].
  inversion H; subst. simpl. rewrite H2. reflexivity.
Qed.

Lemma strip_id (s : pystr) :
  Forall (fun c => Str.isspace c = false) s -> Str.strip s = s.
Proof.
  intros H. unfold Str.strip. rewrite (lstrip_id s H).
  rewrite lstrip_id by (apply Forall_rev; exact H).
  apply rev_involutive.
Qed.

Lemma to_uint_not_nil (n : N) : N.to_uint n <> Decimal.Nil.
Proof.
  destruct n; simpl; [discriminate|].
  apply DecimalPos.Unsigned.to_uint_nonnil.
Qed.

(** [int(str(n)) == n] *)
Lemma int_of_str_of_N (n : N) :
  Num.int_of_str (Num.str_of_N n) = Ok (Z.of_N n).
Proof.
  unfold Num.int_of_str, Num.str_of_N.
  pose proof (str_of_uint_digits (N.to_uint n)) as Hd.
  rewrite strip_id
    by (eapply Forall_impl; [|exact Hd]; intros c; apply digit_not_space).
  assert (Hm : Num.magnitude (Num.str_of_uint (N.to_uint n)) = Ok (Z.of_N n)).
  { unfold Num.magnitude. rewrite digits_first by apply to_uint_not_nil.
    rewrite DecimalN.Unsigned.of_to. reflexivity. }
  destruct (Num.str_of_uint (N.to_uint n)) as [|c s] eqn:E; [exact Hm|].
  inversion Hd as [|c' s' Hc Hs]; subst. unfold is_digit in Hc.
  destruct (N.eq_dec c 45) as [->|H45]; [lia|].
  destruct (N.eq_dec c 43) as [->|H43]; [lia|].
  destruct c as [|p]; [exact Hm|].
  do 6 (destruct p as [p|p|]; try exact Hm); lia.
Qed.

Lemma digits_no_char (x : char) (d : Decimal.uint) :
  ~ is_digit x -> ~ In x (Num.str_of_uint d).
Proof.
  intros Hx Hin. pose proof (str_of_uint_digits d) as Hd.
  rewrite Forall_forall in Hd. exact (Hx (Hd x Hin)).
Qed.

(** * The URL parser *)

Lemma getitem_cases {A} (l : list A) (i : nat) :
  (exists x, getitem l i = Ok x) \/ getitem l i = Raise index_error.
Proof.
  unfold getitem. destruct (nth_error l i) as [x|]; [left; exists x|right];
    reflexivity.
Qed.

(** Splitting at a character that occurs gives at least two pieces. *)
Lemma split_single_two (c : char) (s : pystr) :
  In c s ->
  exists a b l, Str.split s [c] = a :: b :: l /\ ~ In c a
                /\ exists post, s = a ++ c :: post.
Proof.
  intros H. apply contains_single in H. unfold Str.contains in H.
  destruct (Str.find s [c]) as [i|] eqn:F; [|discriminate].
  destruct (find_some _ _ _ F) as [post [E _]].
  pose proof (find_single_first c s i F) as Hfirst.
  rewrite E. change ([c] ++ post) with (c :: post).
  rewrite split_single_app by exact Hfirst.
  destruct (Str.split post [c]) as [|b l] eqn:S; [exfalso; exact (split_nonempty _ _ S)|].
  exists (firstn i s), b, l. repeat split; try assumption.
  exists post. reflexivity.
Qed.

(** The parts of [http://authority/seg1/seg2/...]. *)
Lemma url_parts_of (authority : pystr) (segs : list pystr) :
  ~ In SLASH authority ->
  Forall (fun seg => ~ In SLASH seg) segs ->
  Str.split (lit "http://" ++ authority ++ slash_join segs) [SLASH]
  = lit "http:" :: [] :: authority :: segs.
Proof.
  intros Ha Hs.
  change (lit "http://" ++ authority ++ slash_join segs)
    with (lit "http:" ++ SLASH :: ([] ++ SLASH :: (authority ++ slash_join segs))).
  rewrite split_single_app by (cbn; unfold SLASH; lia).
  rewrite split_single_app by (intros []).
  unfold slash_join. rewrite split_segments by assumption. reflexivity.
Qed.

(** What [_parse_url] returns for [http://authority/seg1/seg2/...]. *)
Lemma parse_url_authority (self : HTTPRequest.t) (authority : pystr)
  (segs : list pystr) :
  ~ In SLASH authority ->
  Forall (fun seg => ~ In SLASH seg) segs ->
  HTTPRequest.url self = lit "http://" ++ authority ++ slash_join segs ->
  HTTPRequest._parse_url self
  = ('(netloc_host, netloc_port) <-
       (if Str.contains [COLON] authority
        then
          let netloc_parts := Str.split authority [COLON] in
          h <- getitem netloc_parts 0 ;;
          p <- getitem netloc_parts 1 ;;
          Ok (h, AStr p)
        else Ok (authority, AnInt 80)) ;;
     Ok (mk_url (lit "http") (authority, netloc_host, netloc_port)
           (slash_join segs))).
Proof.
  intros Ha Hs E. unfold HTTPRequest._parse_url. rewrite E.
  rewrite (url_parts_of authority segs Ha Hs).
  reflexivity.
Qed.

Lemma parse_url_succeeds (self : HTTPRequest.t) (authority : pystr)
  (segs : list pystr) :
  ~ In SLASH authority ->
  Forall (fun seg => ~ In SLASH seg) segs ->
  HTTPRequest.url self = lit "http://" ++ authority ++ slash_join segs ->
  exists h p,
    HTTPRequest._parse_url self
    = Ok (mk_url (lit "http") (authority, h, p) (slash_join segs)).
Proof.
  intros Ha Hs E. rewrite (parse_url_authority self authority segs Ha Hs E).
  destruct (Str.contains [COLON] authority) eqn:C.
  - apply contains_single in C.
    destruct (split_single_two COLON authority C) as [a [b [l [S _]]]].
    cbv zeta. rewrite S. exists a, (AStr b). reflexivity.
  - exists authority, (AnInt 80). reflexivity.
Qed.

Lemma port_suffix_no_slash (port : option N) : ~ In SLASH (port_suffix port).
Proof.
  destruct port as [p|]; simpl; [|tauto].
  intros [H|H]; [discriminate|].
  revert H. apply digits_no_char. unfold is_digit, SLASH. lia.
Qed.



Example parse_url_default_port :
  exists u,
    HTTPRequest._parse_url (GET (lit "http://example.com/data")) = Ok u
    /\ netloc_1 u = lit "example.com"
    /\ netloc_2 u = AnInt 80
    /\ path u = lit "/data".
Proof. eexists. split; [reflexivity|]. repeat split. Qed.

(** ** The scheme check *)

(** C4, as the code has it.  [_parse_url] raises [ValueError("Invalid URL")]
    exactly when the URL does not begin with the four characters [http];
    what follows them is not examined. *)
Theorem invalid_url_iff_no_http_prefix (self : HTTPRequest.t) :
  HTTPRequest._parse_url self = Raise invalid_url
  <-> Str.startswith (HTTPRequest.url self) (lit "http") = false.
Proof.
  unfold HTTPRequest._parse_url.
  destruct (Str.startswith (HTTPRequest.url self) (lit "http")) eqn:S;
    cbn [negb].
  - split; [|discriminate]. intros H. exfalso. revert H.
    set (url_parts := Str.split (HTTPRequest.url self) [SLASH]). cbv zeta.
    destruct (getitem_cases url_parts 0) as [[p0 ->]| ->]; [|discriminate].
    cbn [bind].
    destruct (getitem_cases url_parts 2) as [[p2 ->]| ->]; [|discriminate].
    cbn [bind].
    destruct (Str.contains [COLON] p2).
    + destruct (getitem_cases (Str.split p2 [COLON]) 0) as [[h ->]| ->];
        [|discriminate].
      cbn [bind].
      destruct (getitem_cases (Str.split p2 [COLON]) 1) as [[p ->]| ->];
        discriminate.
    + discriminate.
  - split; reflexivity.
Qed.

(** C4 as stated fails: the leading token [httpx] is no HTTP scheme, and
    the URL is parsed all the same. *)
Lemma scheme_prefix_is_enough :
  let u := lit "httpx://h/p" in
  leading_token u = lit "httpx"
  /\ leading_token u <> lit "http"
  /\ leading_token u <> lit "https"
  /\ HTTPRequest._parse_url (GET u)
     = Ok (mk_url (lit "httpx") (lit "h", lit "h", AnInt 80) (lit "/p")).
Proof.
  cbv zeta. repeat split; discriminate.
Qed.

(** ** A URL without a path *)

(** C3 fails on the code: for [http://example.com] the parsed path is the
    empty text, not ["/"], and the request line that is sent has nothing
    between its two spaces. *)
Theorem parse_url_no_path_is_empty :
  let self := GET (lit "http://example.com") in
  HTTPRequest._parse_url self
  = Ok (mk_url (lit "http") (lit "example.com", lit "example.com", AnInt 80) [])
  /\ HTTPRequest.construct_http_request Json.dumps self
     = Ok (lit "GET  HTTP/1.1" ++ CRLF ++ lit "Host: example.com" ++ CRLF ++ CRLF).
Proof.
  cbv zeta. split; reflexivity.
Qed.

(** In general: no segment after the authority, empty path. *)
Lemma parse_url_no_segments (self : HTTPRequest.t) (authority : pystr) :
  ~ In SLASH authority ->
  HTTPRequest.url self = lit "http://" ++ authority ->
  exists u, HTTPRequest._parse_url self = Ok u /\ path u = [].
Proof.
  intros Ha E.
  destruct (parse_url_succeeds self authority [] Ha (Forall_nil _)) as [h [p H]].
  - unfold slash_join. simpl. rewrite app_nil_r. exact E.
  - eexists. split; [exact H | reflexivity].
Qed.

(** A URL that ends in a slash does get the path ["/"]. *)
Example parse_url_trailing_slash :
  exists u,
    HTTPRequest._parse_url (GET (lit "http://10.0.0.1:9000/")) = Ok u
    /\ path u = lit "/".
Proof. eexists. split; reflexivity. Qed.

(** * The request builder *)

Lemma header_lines_app (items : list (pystr * pystr)) :
  forall acc,
    HTTPRequest.header_lines items acc
    = acc ++ HTTPRequest.header_lines items [].
Proof.
  induction items as [|[k v] items IH]; intros acc; simpl.
  - symmetry. apply app_nil_r.
  - rewrite IH. rewrite (IH (k ++ _)). rewrite <- !app_assoc. reflexivity.
Qed.

(** The header block of a request whose URL parses. *)
Lemma parse_http_headers_eq (dumps : dict Json.value -> pystr)
  (self : HTTPRequest.t) (u : url) :
  HTTPRequest._parse_url self = Ok u ->
  HTTPRequest._parse_http_headers dumps self
  = Ok (lit "Host: " ++ netloc_0 u ++ CRLF
        ++ (if Str.eqb (HTTPRequest.method self) HTTP_POST
            then lit "Content-Length: "
                 ++ Num.str_of_nat
                      (HTTPRequest.content_length dumps self
                         (HTTPRequest.json_body self))
                 ++ CRLF
            else [])
        ++ HTTPRequest.header_lines (HTTPRequest.headers self) []).
Proof.
  intros E. unfold HTTPRequest._parse_http_headers. rewrite E. cbn [bind].
  cbv zeta. rewrite header_lines_app. f_equal.
  destruct (Str.eqb (HTTPRequest.method self) HTTP_POST);
    cbn [app]; rewrite <- ?app_assoc; cbn [app]; reflexivity.
Qed.

(** C1, as the code has it.  The value of the [Host] header is the
    authority exactly as the URL has it: with an explicit port, the host,
    a colon and the port. *)
Theorem host_header_is_authority (dumps : dict Json.value -> pystr)
  (self : HTTPRequest.t) (host port : pystr) (segs : list pystr) :
  ~ In SLASH host -> ~ In SLASH port ->
  Forall (fun seg => ~ In SLASH seg) segs ->
  HTTPRequest.url self
  = lit "http://" ++ (host ++ COLON :: port) ++ slash_join segs ->
  exists rest,
    HTTPRequest._parse_http_headers dumps self
    = Ok (lit "Host: " ++ (host ++ COLON :: port) ++ CRLF ++ rest).
Proof.
  intros Hh Hp Hs E.
  assert (Ha : ~ In SLASH (host ++ COLON :: port)).
  { intros H. apply in_app_or in H as [H|[H|H]];
      [exact (Hh H) | discriminate | exact (Hp H)]. }
  destruct (parse_url_succeeds self _ segs Ha Hs E) as [h [p H]].
  rewrite (parse_http_headers_eq dumps self _ H). eexists. reflexivity.
Qed.

Lemma host_header_is_authority_witness :
  exists rest,
    HTTPRequest._parse_http_headers Json.dumps (GET (lit "http://h:9000/p"))
    = Ok (lit "Host: h:9000" ++ CRLF ++ rest).
Proof.
  apply (host_header_is_authority Json.dumps (GET (lit "http://h:9000/p"))
           (lit "h") (lit "9000") [lit "p"]).
  - unfold SLASH. simpl. lia.
  - unfold SLASH. simpl. lia.
  - unfold SLASH. repeat constructor; simpl; lia.
  - reflexivity.
Defined.

(** C1 as stated fails: for [http://h:9000/p] the header is
    [Host: h:9000], not [Host: h]. *)
Lemma host_header_has_port :
  let self := GET (lit "http://h:9000/p") in
  HTTPRequest._parse_http_headers Json.dumps self
  = Ok (lit "Host: h:9000" ++ CRLF)
  /\ ~ exists rest,
         HTTPRequest._parse_http_headers Json.dumps self
         = Ok (lit "Host: h" ++ CRLF ++ rest).
Proof.
  cbv zeta. split; [reflexivity|].
  intros [rest H]. discriminate H.
Qed.

(** ** Content-Length and the body *)



(** What [construct_http_request] returns for a POST request with a JSON
    mapping. *)
Lemma construct_post_json (dumps : dict Json.value -> pystr)
  (self : HTTPRequest.t) (u : url) :
  HTTPRequest.method self = HTTP_POST ->
  HTTPRequest.json self <> [] ->
  HTTPRequest.json_body self = truthy (HTTPRequest.json self) ->
  HTTPRequest._parse_url self = Ok u ->
  HTTPRequest.construct_http_request dumps self
  = Ok ((lit "POST " ++ path u ++ lit " HTTP/1.1" ++ CRLF
         ++ lit "Host: " ++ netloc_0 u ++ CRLF
         ++ lit "Content-Length: "
         ++ Num.str_of_nat (length (dumps (HTTPRequest.json self))) ++ CRLF
         ++ HTTPRequest.header_lines (HTTPRequest.headers self) [])
        ++ CRLF ++ dumps (HTTPRequest.json self)).
Proof.
  intros Hm Hj Hb Hu. unfold HTTPRequest.construct_http_request.
  rewrite (parse_http_headers_eq dumps self u Hu), Hu. cbn [bind].
  unfold HTTPRequest.content_length, HTTPRequest._parse_http_json.
  rewrite Hb, Hm.
  destruct (HTTPRequest.json self) as [|kv j] eqn:J; [congruence|].
  cbn [truthy negb].
  change (Str.eqb HTTP_POST HTTP_POST) with true.
  change (Str.eqb HTTP_POST HTTP_GET) with false.
  cbv iota zeta. rewrite <- !app_assoc. reflexivity.
Qed.




(** [len] counts characters.  With a serializer that leaves non-ASCII
    characters as they are, the header falls short of the bytes sent: for
    [{"k": "é"}], ten characters are announced and eleven bytes follow. *)
Lemma content_length_counts_characters :
  let self := POST (lit "http://h/data") [(lit "k", Json.JStr [233%N])] in
  HTTPRequest._parse_http_headers Json.dumps_raw self
  = Ok (lit "Host: h" ++ CRLF ++ lit "Content-Length: 10" ++ CRLF)
  /\ (b <- Utf8.encode (Json.dumps_raw (HTTPRequest.json self)) ;;
      Ok (length b)) = Ok 11.
Proof.
  cbv zeta. split; reflexivity.
Qed.

(** * The connection: when the socket is closed *)

Section CloseCount.
Import Socket.


















End CloseCount.

Section Sessions.
Import Socket.




(** The request object that [__init__] hands back: the arguments, and
    [json_body] true exactly for a non-empty JSON mapping. *)
Lemma init_fields (method url : pystr) (data : dict pystr)
  (json : dict Json.value) (headers : dict pystr) (timeout : float)
  (w : world) (self : HTTPRequest.t) :
  fst (HTTPRequest.__init__ method url data json headers timeout w) = Ok self ->
  self = HTTPRequest.mk method url data json headers timeout (truthy json).
Proof.
  unfold HTTPRequest.__init__, bindIO, SocketOps.socket, SocketOps.settimeout,
    lift, ret.
  destruct (HTTPRequest._parse_url _) as [u|e]; cbn [fst]; [|discriminate].
  destruct (int (netloc_2 u)) as [port|e]; cbn [fst]; [|discriminate].
  unfold SocketOps.connect.
  destruct (connect_error _ _ _); cbn [fst]; [discriminate|].
  intros H. inversion H. destruct json; reflexivity.
Qed.


End Sessions.



Example answered_call_closes_once :
  let out := post Json.dumps (lit "http://172.16.153.150/data") [] x1 []
               (QArith_base.Qmake 3 1) answering in
  fst out = Ok (HTTPResponse.new sample_response)
  /\ Socket.creations (snd out) = 1
  /\ Socket.closes (snd out) = 1.
Proof.
  cbv zeta. repeat split.
Qed.

(** * Further properties of the request builder *)

Lemma join_cons (sep x : pystr) (l : list pystr) :
  l <> [] -> Str.join sep (x :: l) = x ++ sep ++ Str.join sep l.
Proof. destruct l; [congruence | reflexivity]. Qed.

Lemma data_items_join (items : list (pystr * pystr)) :
  forall i len request_data,
    (i + Z.of_nat (length items) = len)%Z ->
    HTTPRequest.data_items items i len request_data
    = request_data ++ Str.join (lit "&") (map form_pair items).
Proof.
  induction items as [|[key data] items IH]; intros i len acc Hlen.
  - simpl. symmetry. apply app_nil_r.
  - cbn [HTTPRequest.data_items]. rewrite IH by (cbn [length] in Hlen; lia).
    destruct items as [|kv items].
    + cbn [length] in Hlen.
      replace (i =? len - 1)%Z with true by (symmetry; apply Z.eqb_eq; lia).
      cbn. rewrite !app_nil_r. reflexivity.
    + replace (i =? len - 1)%Z with false
        by (symmetry; apply Z.eqb_neq; cbn [length] in Hlen; lia).
      cbn [negb map]. rewrite (join_cons _ (form_pair (key, data)))
        by (intros X; discriminate X).
      change (form_pair (key, data)) with (key ++ lit "=" ++ data).
      rewrite <- !app_assoc. reflexivity.
Qed.

(** X1. The form-encoded text is the items [key=value], in the order of
    the mapping, with [&] between them: nothing before the first, nothing
    after the last, and no character of a key or value is escaped. *)
Theorem parse_http_data_is_join (self : HTTPRequest.t) :
  HTTPRequest._parse_http_data self
  = Str.join (lit "&") (map form_pair (HTTPRequest.data self)).
Proof.
  unfold HTTPRequest._parse_http_data. rewrite data_items_join by lia.
  reflexivity.
Qed.

Lemma header_lines_concat (items : list (pystr * pystr)) :
  HTTPRequest.header_lines items [] = concat (map header_line items).
Proof.
  induction items as [|[k v] items IH]; [reflexivity|].
  cbn [HTTPRequest.header_lines map concat]. rewrite header_lines_app, IH.
  unfold header_line. cbn [fst snd app]. rewrite <- !app_assoc. reflexivity.
Qed.

(** X2. The header block of a request is the [Host] line, then, for POST
    only, the [Content-Length] line, then one line per header of the
    caller, in the caller's order; a header the caller gives is added even
    when it repeats [Host] or [Content-Length]. *)
Theorem header_block_layout (dumps : dict Json.value -> pystr)
  (self : HTTPRequest.t) (u : url) :
  HTTPRequest._parse_url self = Ok u ->
  HTTPRequest._parse_http_headers dumps self
  = Ok (header_line (lit "Host", netloc_0 u)
        ++ (if Str.eqb (HTTPRequest.method self) HTTP_POST
            then header_line
                   (lit "Content-Length",
                    Num.str_of_nat
                      (HTTPRequest.content_length dumps self
                         (HTTPRequest.json_body self)))
            else [])
        ++ concat (map header_line (HTTPRequest.headers self))).
Proof.
  intros E. rewrite (parse_http_headers_eq dumps self u E).
  rewrite header_lines_concat. unfold header_line. cbn [fst snd].
  destruct (Str.eqb (HTTPRequest.method self) HTTP_POST);
    rewrite <- ?app_assoc; reflexivity.
Qed.

Lemma header_block_layout_witness :
  HTTPRequest._parse_http_headers Json.dumps
    (HTTPRequest.mk HTTP_POST (lit "http://h/p") [] x1
       [(lit "Host", lit "other"); (lit "Accept", lit "*/*")]
       (QArith_base.Qmake 3 1) true)
  = Ok (lit "Host: h" ++ CRLF ++ lit "Content-Length: 8" ++ CRLF
        ++ lit "Host: other" ++ CRLF ++ lit "Accept: */*" ++ CRLF).
Proof.
  apply (header_block_layout Json.dumps
           (HTTPRequest.mk HTTP_POST (lit "http://h/p") [] x1
              [(lit "Host", lit "other"); (lit "Accept", lit "*/*")]
              (QArith_base.Qmake 3 1) true)
           (mk_url (lit "http") (lit "h", lit "h", AnInt 80) (lit "/p"))).
  reflexivity.
Defined.

(** The text that follows the blank line: the JSON text when a JSON
    mapping is given, the form-encoded data otherwise. *)
Lemma construct_eq (dumps : dict Json.value -> pystr) (self : HTTPRequest.t)
  (u : url) :
  HTTPRequest._parse_url self = Ok u ->
  HTTPRequest.construct_http_request dumps self
  = (http_headers <- HTTPRequest._parse_http_headers dumps self ;;
     let body_data :=
       if truthy (HTTPRequest.json self) then dumps (HTTPRequest.json self)
       else Str.join (lit "&") (map form_pair (HTTPRequest.data self)) in
     if Str.eqb (HTTPRequest.method self) HTTP_GET
     then
       Ok (HTTPRequest.method self ++ lit " " ++ path u
           ++ (if truthy (HTTPRequest.data self)
                  && negb (truthy (HTTPRequest.json self))
               then lit "?" ++ body_data else [])
           ++ lit " " ++ HTTP_VERSION ++ CRLF ++ http_headers ++ CRLF)
     else
       Ok (HTTPRequest.method self ++ lit " " ++ path u ++ lit " "
           ++ HTTP_VERSION ++ CRLF ++ http_headers ++ CRLF ++ body_data)).
Proof.
  intros E. unfold HTTPRequest.construct_http_request. rewrite E. cbn [bind].
  unfold HTTPRequest._parse_http_json, HTTPRequest._parse_http_data.
  rewrite data_items_join by lia. cbn [app].
  destruct (truthy (HTTPRequest.json self)); reflexivity.
Qed.

(** X3. In a POST request the number in [Content-Length] is [len] of the
    very text that follows the blank line, for a JSON body and for a
    form-encoded body alike; with both a JSON mapping and form data, the
    JSON text is sent and the form data is not. *)
Theorem post_length_matches_body (dumps : dict Json.value -> pystr)
  (self : HTTPRequest.t) (u : url) :
  HTTPRequest.method self = HTTP_POST ->
  HTTPRequest.json_body self = truthy (HTTPRequest.json self) ->
  HTTPRequest._parse_url self = Ok u ->
  let body :=
    if truthy (HTTPRequest.json self) then dumps (HTTPRequest.json self)
    else Str.join (lit "&") (map form_pair (HTTPRequest.data self)) in
  HTTPRequest.construct_http_request dumps self
  = Ok (lit "POST " ++ path u ++ lit " HTTP/1.1" ++ CRLF
        ++ header_line (lit "Host", netloc_0 u)
        ++ header_line (lit "Content-Length", Num.str_of_nat (length body))
        ++ concat (map header_line (HTTPRequest.headers self))
        ++ CRLF ++ body).
Proof.
  intros Hm Hb Hu body. rewrite (construct_eq dumps self u Hu).
  rewrite (parse_http_headers_eq dumps self u Hu), header_lines_concat.
  cbn [bind]. cbv zeta. fold body.
  unfold HTTPRequest.content_length, HTTPRequest._parse_http_json,
    HTTPRequest._parse_http_data.
  rewrite data_items_join by lia. cbn [app]. rewrite Hb, Hm.
  change (Str.eqb HTTP_POST HTTP_POST) with true.
  change (Str.eqb HTTP_POST HTTP_GET) with false. cbv iota.
  assert (L : (if negb (truthy (HTTPRequest.json self))
               then length (Str.join (lit "&")
                              (map form_pair (HTTPRequest.data self)))
               else length (dumps (HTTPRequest.json self)))
              = length body).
  { subst body. destruct (truthy (HTTPRequest.json self)); reflexivity. }
  rewrite L. unfold header_line. cbn [fst snd].
  rewrite <- !app_assoc. reflexivity.
Qed.

Lemma post_length_matches_body_witness :
  HTTPRequest.construct_http_request Json.dumps
    (HTTPRequest.mk HTTP_POST (lit "http://h/p")
       [(lit "a", lit "1"); (lit "b", lit "x y")] [] []
       (QArith_base.Qmake 3 1) false)
  = Ok (lit "POST /p HTTP/1.1" ++ CRLF ++ lit "Host: h" ++ CRLF
        ++ lit "Content-Length: 9" ++ CRLF ++ CRLF ++ lit "a=1&b=x y").
Proof.
  apply (post_length_matches_body Json.dumps
           (HTTPRequest.mk HTTP_POST (lit "http://h/p")
              [(lit "a", lit "1"); (lit "b", lit "x y")] [] []
              (QArith_base.Qmake 3 1) false)
           (mk_url (lit "http") (lit "h", lit "h", AnInt 80) (lit "/p")));
    reflexivity.
Defined.

(** X4. A GET request ends with the blank line: it has no body and no
    [Content-Length].  The form data goes into the request line, after a
    question mark, when there is some and no JSON mapping is given; a JSON
    mapping given to a GET request is sent nowhere, and it also keeps the
    form data out. *)
Theorem get_request_layout (dumps : dict Json.value -> pystr)
  (self : HTTPRequest.t) (u : url) :
  HTTPRequest.method self = HTTP_GET ->
  HTTPRequest._parse_url self = Ok u ->
  HTTPRequest.construct_http_request dumps self
  = Ok (lit "GET " ++ path u
        ++ (if truthy (HTTPRequest.data self)
               && negb (truthy (HTTPRequest.json self))
            then lit "?"
                 ++ Str.join (lit "&") (map form_pair (HTTPRequest.data self))
            else [])
        ++ lit " HTTP/1.1" ++ CRLF
        ++ header_line (lit "Host", netloc_0 u)
        ++ concat (map header_line (HTTPRequest.headers self))
        ++ CRLF).
Proof.
  intros Hm Hu. rewrite (construct_eq dumps self u Hu).
  rewrite (parse_http_headers_eq dumps self u Hu), header_lines_concat.
  cbn [bind]. cbv zeta. rewrite Hm.
  change (Str.eqb HTTP_GET HTTP_POST) with false.
  change (Str.eqb HTTP_GET HTTP_GET) with true. cbv iota.
  unfold header_line. cbn [fst snd].
  destruct (truthy (HTTPRequest.data self));
    destruct (truthy (HTTPRequest.json self)); cbn [andb negb];
    rewrite <- ?app_assoc; reflexivity.
Qed.

Lemma get_request_layout_witness :
  HTTPRequest.construct_http_request Json.dumps
    (HTTPRequest.mk HTTP_GET (lit "http://h/p")
       [(lit "a", lit "1"); (lit "b", lit "2")] [] []
       (QArith_base.Qmake 3 1) false)
  = Ok (lit "GET /p?a=1&b=2 HTTP/1.1" ++ CRLF ++ lit "Host: h" ++ CRLF ++ CRLF).
Proof.
  apply (get_request_layout Json.dumps
           (HTTPRequest.mk HTTP_GET (lit "http://h/p")
              [(lit "a", lit "1"); (lit "b", lit "2")] [] []
              (QArith_base.Qmake 3 1) false)
           (mk_url (lit "http") (lit "h", lit "h", AnInt 80) (lit "/p")));
    reflexivity.
Defined.


(** * Further properties of the URL parser *)

Lemma split_aux_single_text (c : char) (s : pystr) :
  forall p ps,
    Str.split_aux [c] s 0 = (p, ps) ->
    s = p ++ concat (map (cons c) ps) /\ length ps = count_occ N.eq_dec s c.
Proof.
  induction s as [|x s IH]; intros p ps E.
  - inversion E; subst. split; reflexivity.
  - cbn [Str.split_aux] in E. rewrite startswith_single in E.
    change (length [c] - 1) with 0 in E.
    destruct (Str.split_aux [c] s 0) as [p' ps'] eqn:E'.
    destruct (IH _ _ eq_refl) as [Hs Hn].
    cbn [count_occ].
    destruct (N.eqb_spec x c) as [->|Hx]; inversion E; subst p ps.
    + destruct (N.eq_dec c c) as [_|N]; [|congruence].
      split; [cbn; f_equal; exact Hs | cbn [length]; f_equal; exact Hn].
    + destruct (N.eq_dec x c) as [Y|_]; [congruence|].
      split; [cbn; f_equal; exact Hs | exact Hn].
Qed.

(** The pieces of a text cut at a character, put together again. *)
Lemma split_single_text (c : char) (s : pystr) :
  exists p ps,
    Str.split s [c] = p :: ps
    /\ s = p ++ concat (map (cons c) ps)
    /\ length ps = count_occ N.eq_dec s c
    /\ Forall (fun q => ~ In c q) (p :: ps).
Proof.
  unfold Str.split. destruct (Str.split_aux [c] s 0) as [p ps] eqn:E.
  destruct (split_aux_single_text c s p ps E) as [Hs Hn].
  exists p, ps. repeat split; try assumption.
  exact (split_aux_single c s p ps E).
Qed.

(** X6. A URL that begins with [http] parses if and only if it has at
    least two slashes; with fewer, [_parse_url] raises [IndexError], not
    [ValueError].  No other input makes the parser fail: the authority and
    the port are not examined. *)
Theorem parse_url_needs_two_slashes (self : HTTPRequest.t) :
  Str.startswith (HTTPRequest.url self) (lit "http") = true ->
  (2 <= slashes (HTTPRequest.url self) ->
   exists u, HTTPRequest._parse_url self = Ok u)
  /\ (slashes (HTTPRequest.url self) < 2 ->
      HTTPRequest._parse_url self = Raise index_error).
Proof.
  intros Hp. unfold HTTPRequest._parse_url, slashes. rewrite Hp. cbn [negb].
  destruct (split_single_text SLASH (HTTPRequest.url self))
    as [p [ps [S [_ [Hn _]]]]].
  rewrite S. cbv zeta. rewrite <- Hn. split; intros H.
  - destruct ps as [|p1 [|p2 rest]]; cbn [length] in H; try lia.
    change (getitem (p :: p1 :: p2 :: rest) 0) with (@Ok pystr p).
    change (getitem (p :: p1 :: p2 :: rest) 2) with (@Ok pystr p2).
    cbn [bind].
    destruct (Str.contains [COLON] p2) eqn:C.
    + apply contains_single in C.
      destruct (split_single_two COLON p2 C) as [a [b [l [S2 _]]]].
      rewrite S2. eexists. reflexivity.
    + eexists. reflexivity.
  - destruct ps as [|p1 [|p2 rest]]; cbn [length] in H; try lia; reflexivity.
Qed.

Lemma parse_url_needs_two_slashes_witness :
  (exists u, HTTPRequest._parse_url (GET (lit "httpd/a/b:1:2/c")) = Ok u)
  /\ HTTPRequest._parse_url (GET (lit "http:example.com/data"))
     = Raise index_error.
Proof.
  split.
  - apply (parse_url_needs_two_slashes (GET (lit "httpd/a/b:1:2/c")));
      [reflexivity | unfold slashes; simpl; lia].
  - apply (parse_url_needs_two_slashes (GET (lit "http:example.com/data")));
      [reflexivity | unfold slashes; simpl; lia].
Defined.

(** X7. Whatever parses can be read back: the URL is the text before the
    first slash, a slash, the text up to the second slash, a slash, and then
    the authority and the path exactly as the parser returns them.  Only
    the scheme is altered (its colons are dropped) and the text between the
    first two slashes is lost. *)
Theorem parse_url_reads_back (self : HTTPRequest.t) (u : url) :
  HTTPRequest._parse_url self = Ok u ->
  exists p0 p1,
    HTTPRequest.url self = p0 ++ SLASH :: p1 ++ SLASH :: netloc_0 u ++ path u
    /\ scheme u = Str.replace p0 [COLON] []
    /\ ~ In SLASH p0 /\ ~ In SLASH p1 /\ ~ In SLASH (netloc_0 u).
Proof.
  unfold HTTPRequest._parse_url.
  destruct (Str.startswith (HTTPRequest.url self) (lit "http")); cbn [negb];
    [|discriminate].
  destruct (split_single_text SLASH (HTTPRequest.url self))
    as [p [ps [S [Hs [_ Hf]]]]].
  rewrite S. cbv zeta.
  destruct ps as [|p1 [|p2 rest]]; try discriminate.
  change (getitem (p :: p1 :: p2 :: rest) 0) with (@Ok pystr p).
  change (getitem (p :: p1 :: p2 :: rest) 2) with (@Ok pystr p2).
  cbn [bind]. intros H.
  assert (Hu : exists h q,
             u = mk_url (Str.replace p [COLON] []) (p2, h, q)
                   (concat (map (cons SLASH) rest))).
  { destruct (Str.contains [COLON] p2).
    - destruct (getitem (Str.split p2 [COLON]) 0) as [h|]; [|discriminate].
      cbn [bind] in H.
      destruct (getitem (Str.split p2 [COLON]) 1) as [q|]; [|discriminate].
      cbn in H. inversion H. eauto.
    - cbn in H. inversion H. eauto. }
  destruct Hu as [h [q ->]]. exists p, p1. cbn.
  inversion Hf as [|? ? H0 Hf1]; subst.
  inversion Hf1 as [|? ? H1 Hf2]; subst.
  inversion Hf2 as [|? ? H2 _]; subst.
  repeat split; assumption.
Qed.

Lemma parse_url_reads_back_witness :
  exists p0 p1,
    lit "http://10.0.0.1:9000/data/x"
    = p0 ++ SLASH :: p1 ++ SLASH :: lit "10.0.0.1:9000" ++ lit "/data/x"
    /\ lit "http" = Str.replace p0 [COLON] []
    /\ ~ In SLASH p0 /\ ~ In SLASH p1 /\ ~ In SLASH (lit "10.0.0.1:9000").
Proof.
  apply (parse_url_reads_back (GET (lit "http://10.0.0.1:9000/data/x"))
           (mk_url (lit "http")
              (lit "10.0.0.1:9000", lit "10.0.0.1", AStr (lit "9000"))
              (lit "/data/x"))).
  reflexivity.
Defined.

(** X8. The authority is cut at its colons.  Without a colon it is the
    host, and the port is the integer 80.  With one, the host is the text
    before the first colon and the port is the text up to the next colon or
    the end, kept as text; anything from a second colon on is ignored. *)
Theorem parse_url_authority_parts (self : HTTPRequest.t) (u : url) :
  HTTPRequest._parse_url self = Ok u ->
  (~ In COLON (netloc_0 u) /\ netloc_1 u = netloc_0 u /\ netloc_2 u = AnInt 80)
  \/ exists port ignored,
       netloc_2 u = AStr port
       /\ netloc_0 u = netloc_1 u ++ COLON :: port ++ ignored
       /\ ~ In COLON (netloc_1 u) /\ ~ In COLON port
       /\ (ignored = [] \/ exists t, ignored = COLON :: t).
Proof.
  unfold HTTPRequest._parse_url.
  destruct (Str.startswith (HTTPRequest.url self) (lit "http")); cbn [negb];
    [|discriminate].
  set (url_parts := Str.split (HTTPRequest.url self) [SLASH]). cbv zeta.
  destruct (getitem url_parts 0) as [p0|]; [|discriminate]. cbn [bind].
  destruct (getitem url_parts 2) as [p2|]; [|discriminate]. cbn [bind].
  destruct (Str.contains [COLON] p2) eqn:C.
  - apply contains_single in C.
    destruct (split_single_text COLON p2) as [a [ps [S [Hs [Hn Hf]]]]].
    rewrite S.
    destruct ps as [|b l].
    { exfalso. apply (count_occ_In N.eq_dec) in C. cbn [length] in Hn. lia. }
    cbn. intros H. inversion H; subst u. right.
    exists b, (concat (map (cons COLON) l)). cbn.
    pose proof (Forall_inv Hf) as Ha.
    pose proof (Forall_inv (Forall_inv_tail Hf)) as Hb.
    repeat split; try assumption.
    + destruct l as [|x l]; [left; reflexivity|right]. cbn. eauto.
  - cbn. intros H. inversion H; subst u. left. cbn.
    repeat split. intros Hc. apply contains_single in Hc. congruence.
Qed.

Lemma parse_url_authority_parts_witness :
  let u := mk_url (lit "http") (lit "h:80:90", lit "h", AStr (lit "80"))
             (lit "/p") in
  HTTPRequest._parse_url (GET (lit "http://h:80:90/p")) = Ok u
  /\ ((~ In COLON (netloc_0 u) /\ netloc_1 u = netloc_0 u
       /\ netloc_2 u = AnInt 80)
      \/ exists port ignored,
           netloc_2 u = AStr port
           /\ netloc_0 u = netloc_1 u ++ COLON :: port ++ ignored
           /\ ~ In COLON (netloc_1 u) /\ ~ In COLON port
           /\ (ignored = [] \/ exists t, ignored = COLON :: t)).
Proof.
  intros u. split; [reflexivity|].
  apply (parse_url_authority_parts (GET (lit "http://h:80:90/p")) u).
  reflexivity.
Defined.

(** * Further properties of the response parser *)

(** [find] returns the first occurrence. *)
Lemma find_least (s sub : pystr) :
  forall i, Str.find s sub = Some i ->
  forall pre post, s = pre ++ sub ++ post -> i <= length pre.
Proof.
  induction s as [|c s IH]; intros i F pre post E.
  - destruct pre; [|discriminate]. simpl in E.
    rewrite (find_here [] sub) in F
      by (apply startswith_iff; exists post; exact E).
    inversion F. lia.
  - destruct (Str.startswith (c :: s) sub) eqn:St.
    + rewrite (find_here _ _ St) in F. inversion F. lia.
    + rewrite (find_later _ _ _ St) in F.
      destruct (Str.find s sub) as [j|] eqn:Fj; [|discriminate].
      inversion F; subst i.
      destruct pre as [|x pre].
      * exfalso. simpl in E.
        assert (T : Str.startswith (c :: s) sub = true)
          by (apply startswith_iff; exists post; exact E).
        congruence.
      * simpl in E. inversion E; subst.
        specialize (IH j eq_refl pre post eq_refl). simpl. lia.
Qed.

Lemma skipn_after (pre mid post : pystr) :
  skipn (length pre + length mid) (pre ++ mid ++ post) = post.
Proof.
  rewrite app_assoc, skipn_app, length_app, Nat.sub_diag.
  rewrite skipn_all2 by (rewrite length_app; lia). reflexivity.
Qed.

(** X11. Whenever the blank line (CR LF CR LF) occurs in the response,
    [text] returns everything after its first occurrence, and not less: a
    later blank line belongs to the body. *)
Theorem text_after_first_boundary (raw : pystr) :
  occurs CRLFCRLF raw ->
  exists head body,
    HTTPResponse.text (HTTPResponse.new raw) = Ok body
    /\ raw = head ++ CRLFCRLF ++ body
    /\ forall head' body',
         raw = head' ++ CRLFCRLF ++ body' -> length head <= length head'.
Proof.
  intros O. unfold HTTPResponse.text, Str.index, Str.slice_from.
  cbn [HTTPResponse.raw_http_response].
  destruct (Str.find raw CRLFCRLF) as [i|] eqn:F.
  - destruct (find_some _ _ _ F) as [post [E Hi]].
    exists (firstn i raw), post. cbn [bind].
    assert (Hl : length (firstn i raw) = i)
      by (rewrite length_firstn; lia).
    split; [|split].
    + f_equal. rewrite E at 1.
      replace (i + 4) with (length (firstn i raw) + length CRLFCRLF)
        by (rewrite Hl; reflexivity).
      apply skipn_after.
    + exact E.
    + intros head' body' E'. rewrite Hl. exact (find_least _ _ _ F _ _ E').
  - exfalso. apply find_none in F. exact (F O).
Qed.

Lemma text_after_first_boundary_witness :
  let raw := lit "HTTP/1.1 200 OK" ++ CRLF ++ lit "A: b" ++ CRLFCRLF
             ++ lit "one" ++ CRLFCRLF ++ lit "two" in
  exists head body,
    HTTPResponse.text (HTTPResponse.new raw) = Ok body
    /\ raw = head ++ CRLFCRLF ++ body
    /\ forall head' body',
         raw = head' ++ CRLFCRLF ++ body' -> length head <= length head'.
Proof.
  intros raw. apply (text_after_first_boundary raw).
  exists (lit "HTTP/1.1 200 OK" ++ CRLF ++ lit "A: b"),
    (lit "one" ++ CRLFCRLF ++ lit "two").
  reflexivity.
Defined.





Lemma split1_colon (line : pystr) :
  (In COLON line ->
   exists k v, Str.split1 line [COLON] = [k; v] /\ line = k ++ COLON :: v)
  /\ (~ In COLON line -> Str.split1 line [COLON] = [line]).
Proof.
  unfold Str.split1. split; intros H.
  - apply contains_single in H. unfold Str.contains in H.
    destruct (Str.find line [COLON]) as [i|] eqn:F; [|discriminate].
    eexists. eexists. split; [reflexivity|].
    assert (S : Str.split1 line [COLON]
                = [firstn i line; skipn (i + length [COLON]) line])
      by (unfold Str.split1; rewrite F; reflexivity).
    exact (proj1 (split1_two COLON line _ _ S)).
  - destruct (Str.find line [COLON]) as [i|] eqn:F; [|reflexivity].
    exfalso. apply H, contains_single. unfold Str.contains. rewrite F.
    reflexivity.
Qed.

Lemma headers_of_lines_outcome (lines : list pystr) :
  forall d,
    (Forall (In COLON) lines ->
     exists d', HTTPResponse.headers_of_lines lines d = Ok d')
    /\ (Exists (fun line => ~ In COLON line) lines ->
        HTTPResponse.headers_of_lines lines d = Raise index_error).
Proof.
  induction lines as [|line lines IH]; intros d.
  - split; [intros _; exists d; reflexivity | intros H; inversion H].
  - cbn [HTTPResponse.headers_of_lines].
    destruct (split1_colon line) as [Hyes Hno]. split; intros H.
    + inversion H as [|? ? Hc Hrest]; subst.
      destruct (Hyes Hc) as [k [v [S _]]]. rewrite S. cbn.
      exact (proj1 (IH _) Hrest).
    + destruct (in_dec N.eq_dec COLON line) as [Hc|Hc].
      * destruct (Hyes Hc) as [k [v [S _]]]. rewrite S. cbn.
        apply (proj2 (IH _)). inversion H; [contradiction | assumption].
      * rewrite (Hno Hc). reflexivity.
Qed.

(** X13. Once the header block is found, [headers] fails in one case only:
    some line of the block has no colon, and then with [IndexError].  When
    every line has a colon it returns a dictionary. *)
Theorem headers_fail_on_line_without_colon (raw block : pystr) :
  HTTPResponse.header_block (HTTPResponse.new raw) = Ok block ->
  (Forall (In COLON) (Str.split block CRLF) ->
   exists d, HTTPResponse.headers (HTTPResponse.new raw) = Ok d)
  /\ (Exists (fun line => ~ In COLON line) (Str.split block CRLF) ->
      HTTPResponse.headers (HTTPResponse.new raw) = Raise index_error).
Proof.
  intros B. unfold HTTPResponse.headers. rewrite B. cbn [bind].
  apply headers_of_lines_outcome.
Qed.

Lemma headers_fail_on_line_without_colon_witness :
  let raw := lit "HTTP/1.1 200 OK" ++ CRLF ++ lit "A: b" ++ CRLF
             ++ lit "broken line" ++ CRLFCRLF ++ lit "body" in
  HTTPResponse.headers (HTTPResponse.new raw) = Raise index_error.
Proof.
  intros raw.
  apply (headers_fail_on_line_without_colon raw
           (lit "A:b" ++ CRLF ++ lit "brokenline")).
  - reflexivity.
  - apply Exists_cons_tl, Exists_cons_hd. unfold COLON. simpl. lia.
Defined.

(** Lookup after a store. *)
Lemma dict_get_set_same {V} (d : dict V) (k : pystr) (v : V) :
  dict_get (dict_set d k v) k = Some v.
Proof.
  induction d as [|[k' v'] d IH]; simpl.
  - rewrite (proj2 (eqb_eq k k) eq_refl). reflexivity.
  - destruct (Str.eqb k' k) eqn:E; simpl; rewrite E; [reflexivity | exact IH].
Qed.

Lemma dict_get_set_other {V} (d : dict V) (k k0 : pystr) (v : V) :
  k0 <> k -> dict_get (dict_set d k0 v) k = dict_get d k.
Proof.
  intros N. induction d as [|[k' v'] d IH]; simpl.
  - destruct (Str.eqb k0 k) eqn:E; [apply eqb_eq in E; congruence|reflexivity].
  - destruct (Str.eqb k' k0) eqn:E0; simpl.
    + apply eqb_eq in E0. subst k'.
      destruct (Str.eqb k0 k) eqn:E; [apply eqb_eq in E; congruence|reflexivity].
    + destruct (Str.eqb k' k); [reflexivity | exact IH].
Qed.

Lemma split1_key_value (k v : pystr) :
  ~ In COLON k -> Str.split1 (k ++ COLON :: v) [COLON] = [k; v].
Proof.
  intros Hk.
  destruct (proj1 (split1_colon (k ++ COLON :: v))) as [k' [v' [S E]]].
  { apply in_or_app. right. left. reflexivity. }
  rewrite S. destruct (split1_two COLON _ _ _ S) as [_ Hk'].
  assert (K : k = k' /\ v = v').
  { clear S. revert k' E Hk'. induction k as [|x k IH]; intros k' E Hk'.
    - destruct k' as [|y k']; simpl in E.
      + inversion E. split; reflexivity.
      + inversion E; subst. exfalso. apply Hk'. left. reflexivity.
    - destruct k' as [|y k']; simpl in E.
      + inversion E; subst. exfalso. apply Hk. left. reflexivity.
      + inversion E; subst.
        destruct (IH (fun H => Hk (or_intror H)) k' H1
                    (fun H => Hk' (or_intror H))) as [-> ->].
        split; reflexivity. }
  destruct K as [-> ->]. reflexivity.
Qed.

Lemma headers_of_lines_keeps (lines : list pystr) (k : pystr) :
  Forall (fun line => forall v, line <> k ++ COLON :: v) lines ->
  forall d d',
    HTTPResponse.headers_of_lines lines d = Ok d' ->
    dict_get d' k = dict_get d k.
Proof.
  induction 1 as [|line lines Hline _ IH]; intros d d' E.
  - simpl in E. inversion E. reflexivity.
  - cbn [HTTPResponse.headers_of_lines] in E.
    destruct (in_dec N.eq_dec COLON line) as [Hc|Hc].
    + destruct (proj1 (split1_colon line) Hc) as [k0 [v0 [S L]]].
      rewrite S in E. cbn in E. rewrite (IH _ _ E).
      apply dict_get_set_other. intros ->. exact (Hline v0 L).
    + rewrite (proj2 (split1_colon line) Hc) in E. cbn in E. discriminate.
Qed.

Lemma headers_of_lines_app (a b : list pystr) :
  forall d,
    HTTPResponse.headers_of_lines (a ++ b) d
    = (d1 <- HTTPResponse.headers_of_lines a d ;;
       HTTPResponse.headers_of_lines b d1).
Proof.
  induction a as [|line a IH]; intros d; [reflexivity|].
  cbn [app HTTPResponse.headers_of_lines].
  destruct (truthy (Str.split1 line [COLON])); [|apply IH].
  destruct (getitem (Str.split1 line [COLON]) 0); [|reflexivity]. cbn [bind].
  destruct (getitem (Str.split1 line [COLON]) 1); [|reflexivity]. cbn [bind].
  apply IH.
Qed.

(** X14. When a header name comes more than once, the dictionary has the
    value of its last line: looking up a key gives the value of the last
    line of the block that has this key before its first colon. *)
Theorem headers_last_line_wins (raw block : pystr) (d : dict pystr)
  (before after : list pystr) (k v : pystr) :
  HTTPResponse.header_block (HTTPResponse.new raw) = Ok block ->
  HTTPResponse.headers (HTTPResponse.new raw) = Ok d ->
  Str.split block CRLF = before ++ (k ++ COLON :: v) :: after ->
  ~ In COLON k ->
  Forall (fun line => forall v', line <> k ++ COLON :: v') after ->
  dict_get d k = Some v.
Proof.
  intros B H S Hk Hafter. unfold HTTPResponse.headers in H.
  rewrite B in H. cbn [bind] in H. rewrite S, headers_of_lines_app in H.
  destruct (HTTPResponse.headers_of_lines before []) as [d1|]; [|discriminate].
  cbn [bind HTTPResponse.headers_of_lines] in H.
  rewrite (split1_key_value k v Hk) in H. cbn in H.
  rewrite (headers_of_lines_keeps after k Hafter _ _ H).
  apply dict_get_set_same.
Qed.

Lemma headers_last_line_wins_witness :
  let raw := lit "HTTP/1.1 200 OK" ++ CRLF ++ lit "A: 1" ++ CRLF
             ++ lit "A: 3" ++ CRLF ++ lit "B: 2" ++ CRLFCRLF in
  HTTPResponse.headers (HTTPResponse.new raw)
  = Ok [(lit "A", lit "3"); (lit "B", lit "2")]
  /\ dict_get [(lit "A", lit "3"); (lit "B", lit "2")] (lit "A")
     = Some (lit "3").
Proof.
  intros raw. split; [reflexivity|].
  apply (headers_last_line_wins raw
           (lit "A:1" ++ CRLF ++ lit "A:3" ++ CRLF ++ lit "B:2")
           [(lit "A", lit "3"); (lit "B", lit "2")]
           [lit "A:1"] [lit "B:2"] (lit "A") (lit "3")).
  - reflexivity.
  - reflexivity.
  - reflexivity.
  - unfold COLON. simpl. lia.
  - constructor; [intros v' E; discriminate E | constructor].
Defined.

(** * Further properties of the connection *)

Section Connection.
Import Socket.

(** The tuple for [http://host[:port]/seg1/...], in full. *)
Lemma parse_url_exact (self : HTTPRequest.t) (host : pystr) (port : option N)
  (segs : list pystr) :
  ~ In SLASH host -> ~ In COLON host ->
  Forall (fun seg => ~ In SLASH seg) segs ->
  HTTPRequest.url self
  = lit "http://" ++ (host ++ port_suffix port) ++ slash_join segs ->
  HTTPRequest._parse_url self
  = Ok (mk_url (lit "http")
          (host ++ port_suffix port, host,
           match port with
           | Some p => AStr (Num.str_of_N p)
           | None => AnInt 80
           end)
          (slash_join segs)).
Proof.
  intros Hs Hc Hsegs E.
  assert (Ha : ~ In SLASH (host ++ port_suffix port)).
  { intros H. apply in_app_or in H as [H|H]; [exact (Hs H)|].
    exact (port_suffix_no_slash port H). }
  rewrite (parse_url_authority self _ segs Ha Hsegs E).
  destruct port as [p|]; cbn [port_suffix].
  - assert (C : Str.contains [COLON] (host ++ COLON :: Num.str_of_N p) = true).
    { apply contains_single, in_or_app. right. left. reflexivity. }
    rewrite C. cbv zeta.
    rewrite split_single_app by exact Hc.
    rewrite split_single_whole
      by (apply digits_no_char; unfold is_digit, COLON; lia).
    reflexivity.
  - rewrite app_nil_r.
    assert (C : Str.contains [COLON] host = false).
    { destruct (Str.contains [COLON] host) eqn:C; [|reflexivity].
      apply contains_single in C. contradiction. }
    rewrite C. reflexivity.
Qed.

Lemma int_of_port (port : option N) :
  int (match port with
       | Some p => AStr (Num.str_of_N p)
       | None => AnInt 80
       end) = Ok (port_value port).
Proof. destruct port as [p|]; [apply int_of_str_of_N | reflexivity]. Qed.

(** [__init__], step by step. *)
Lemma init_run (method url : pystr) (data : dict pystr)
  (json : dict Json.value) (headers : dict pystr) (timeout : float)
  (w : world) :
  let self := HTTPRequest.mk method url data json headers timeout (truthy json) in
  let w2 := mk_world (connect_error w) (send_error w) (incoming w)
              (trace w ++ [Create; SetTimeout timeout]) in
  HTTPRequest.__init__ method url data json headers timeout w
  = match (u <- HTTPRequest._parse_url self ;;
           port <- int (netloc_2 u) ;; Ok (netloc_1 u, port)) with
    | Raise e => (Raise e, w2)
    | Ok (dest_host, port) =>
        (match connect_error w dest_host port with
         | None => Ok self
         | Some msg => Raise (OSError msg)
         end,
         mk_world (connect_error w) (send_error w) (incoming w)
           (trace w ++ [Create; SetTimeout timeout; Connect dest_host port]))
    end.
Proof.
  cbv zeta. unfold HTTPRequest.__init__.
  replace (if truthy json then true else false) with (truthy json)
    by (destruct json; reflexivity).
  set (self := HTTPRequest.mk method url data json headers timeout (truthy json)).
  unfold bindIO, SocketOps.socket, SocketOps.settimeout, lift, ret,
    SocketOps.connect, log.
  cbn [connect_error send_error incoming trace].
  rewrite <- !app_assoc. cbn [app].
  destruct (HTTPRequest._parse_url self) as [u|e]; cbn [bind]; [|reflexivity].
  destruct (int (netloc_2 u)) as [port|e]; cbn [bind]; [|reflexivity].
  cbn [connect_error send_error incoming trace].
  rewrite <- !app_assoc. cbn [app].
  destruct (connect_error w (netloc_1 u) port); reflexivity.
Qed.





End Connection.

Section Receiving.
Import Socket.

Lemma recv_loop_chunks (tail rest : list recv_step)
  (r : bytes -> result bytes) (chunks : list bytes) :
  (forall buf w,
      SocketOps.recv_loop tail buf w
      = (r buf,
         mk_world (connect_error w) (send_error w) rest
           (trace w ++ [Recv 1024]))) ->
  Forall (fun data => data <> []) chunks ->
  forall buf w,
    SocketOps.recv_loop (map Data chunks ++ tail) buf w
    = (r (buf ++ concat chunks),
       mk_world (connect_error w) (send_error w) rest
         (trace w ++ repeat (Recv 1024) (S (length chunks)))).
Proof.
  intros Htail. induction 1 as [|data chunks Hd _ IH]; intros buf w.
  - cbn [map app concat length repeat]. rewrite app_nil_r. apply Htail.
  - cbn [map app SocketOps.recv_loop].
    destruct data as [|b data]; [congruence|]. cbn [truthy].
    rewrite IH. unfold log, consume.
    cbn [connect_error send_error incoming trace concat length].
    rewrite <- !app_assoc. reflexivity.
Qed.

(** X15. [get_http_response] reads until the first empty read.  When the
    peer sends non-empty chunks and then closes, the text returned is the
    decoding of all the chunks put together, one more [recv] than there are
    chunks has been made, and the socket is closed after the last one;
    what the peer would send after an empty read is never asked for. *)
Theorem response_is_all_chunks (self : HTTPRequest.t) (w : world)
  (chunks : list bytes) (tail : list recv_step) :
  incoming w = map Data chunks ++ tail ->
  Forall (fun data => data <> []) chunks ->
  tail = [] \/ (exists rest, tail = Data [] :: rest) ->
  HTTPRequest.get_http_response self w
  = (raw <- Utf8.decode (concat chunks) ;; Ok (HTTPResponse.new raw),
     mk_world (connect_error w) (send_error w) (tl tail)
       (trace w ++ repeat (Recv 1024) (S (length chunks)) ++ [Close])).
Proof.
  intros Hin Hne Htail. unfold HTTPRequest.get_http_response, bindIO.
  rewrite Hin.
  rewrite (recv_loop_chunks tail (tl tail) (fun buf => Ok buf) chunks);
    [|destruct Htail as [->|[rest ->]]; reflexivity | exact Hne].
  cbn [app]. unfold SocketOps.close, lift, ret, log.
  cbn [connect_error send_error incoming trace].
  rewrite <- !app_assoc.
  destruct (Utf8.decode (concat chunks)); reflexivity.
Qed.

Lemma response_is_all_chunks_witness :
  HTTPRequest.get_http_response (GET (lit "http://h/p"))
    (mk_world (fun _ _ => None) (fun _ => None)
       [Data (lit "HTTP/1.1 200 OK" ++ CRLF);
        Data (lit "Content-Type: text/plain" ++ CRLFCRLF ++ lit "Hello");
        Data []; Data (lit "never read")] [])
  = (Ok (HTTPResponse.new sample_response),
     mk_world (fun _ _ => None) (fun _ => None) [Data (lit "never read")]
       [Recv 1024; Recv 1024; Recv 1024; Close]).
Proof.
  apply (response_is_all_chunks (GET (lit "http://h/p"))
           (mk_world (fun _ _ => None) (fun _ => None)
              [Data (lit "HTTP/1.1 200 OK" ++ CRLF);
               Data (lit "Content-Type: text/plain" ++ CRLFCRLF ++ lit "Hello");
               Data []; Data (lit "never read")] [])
           [lit "HTTP/1.1 200 OK" ++ CRLF;
            lit "Content-Type: text/plain" ++ CRLFCRLF ++ lit "Hello"]
           [Data []; Data (lit "never read")]).
  - reflexivity.
  - repeat constructor; discriminate.
  - right. eexists. reflexivity.
Defined.

(** X16. When a [recv] fails after some chunks have arrived, the call
    raises the [OSError] of that [recv]: the chunks received so far are
    given to nobody, and [close] is not called. *)
Theorem response_lost_on_recv_error (self : HTTPRequest.t) (w : world)
  (chunks : list bytes) (msg : string) (rest : list recv_step) :
  incoming w = map Data chunks ++ Broken msg :: rest ->
  Forall (fun data => data <> []) chunks ->
  HTTPRequest.get_http_response self w
  = (Raise (OSError msg),
     mk_world (connect_error w) (send_error w) rest
       (trace w ++ repeat (Recv 1024) (S (length chunks)))).
Proof.
  intros Hin Hne. unfold HTTPRequest.get_http_response, bindIO.
  rewrite Hin.
  rewrite (recv_loop_chunks (Broken msg :: rest) rest
             (fun _ => Raise (OSError msg)) chunks);
    [reflexivity | reflexivity | exact Hne].
Qed.

Lemma response_lost_on_recv_error_witness :
  HTTPRequest.get_http_response (GET (lit "http://h/p"))
    (mk_world (fun _ _ => None) (fun _ => None)
       [Data (lit "HTTP/1.1 200 OK" ++ CRLF); Broken "ETIMEDOUT"] [])
  = (Raise (OSError "ETIMEDOUT"),
     mk_world (fun _ _ => None) (fun _ => None) [] [Recv 1024; Recv 1024]).
Proof.
  apply (response_lost_on_recv_error (GET (lit "http://h/p"))
           (mk_world (fun _ _ => None) (fun _ => None)
              [Data (lit "HTTP/1.1 200 OK" ++ CRLF); Broken "ETIMEDOUT"] [])
           [lit "HTTP/1.1 200 OK" ++ CRLF] "ETIMEDOUT" []).
  - reflexivity.
  - repeat constructor; discriminate.
Defined.

End Receiving.

(** * Whole calls *)

Section Calls.
Import Socket.

Lemma session_round_trip (dumps : dict Json.value -> pystr)
  (method url : pystr) (data : dict pystr) (json : dict Json.value)
  (headers : dict pystr) (timeout : float) (w : world) (host : pystr)
  (port : option N) (segs : list pystr) (request : pystr) (wire : bytes)
  (chunks : list bytes) (raw : pystr) :
  ~ In SLASH host -> ~ In COLON host ->
  Forall (fun seg => ~ In SLASH seg) segs ->
  url = lit "http://" ++ (host ++ port_suffix port) ++ slash_join segs ->
  HTTPRequest.construct_http_request dumps
    (HTTPRequest.mk method url data json headers timeout (truthy json))
  = Ok request ->
  Utf8.encode request = Ok wire ->
  connect_error w host (port_value port) = None ->
  send_error w wire = None ->
  incoming w = map Data chunks ->
  Forall (fun data => data <> []) chunks ->
  Utf8.decode (concat chunks) = Ok raw ->
  (http_request_instance <~
     HTTPRequest.__init__ method url data json headers timeout ;;
   HTTPRequest.send_http_request dumps http_request_instance ;;;
   HTTPRequest.get_http_response http_request_instance) w
  = (Ok (HTTPResponse.new raw),
     mk_world (connect_error w) (send_error w) []
       (trace w
        ++ [Create; SetTimeout timeout; Connect host (port_value port);
            Send wire]
        ++ repeat (Recv 1024) (S (length chunks)) ++ [Close])).
Proof.
  intros Hs Hc Hsegs E Hreq Henc Hconn Hsend Hin Hne Hdec.
  unfold bindIO at 1. rewrite init_run. cbv zeta.
  rewrite (parse_url_exact
             (HTTPRequest.mk method url data json headers timeout (truthy json))
             host port segs Hs Hc Hsegs E).
  cbn [bind netloc_1 netloc_2 netloc fst snd]. rewrite int_of_port.
  cbn [bind]. rewrite Hconn.
  unfold bindIO at 1. unfold HTTPRequest.send_http_request, bindIO, lift.
  rewrite Hreq, Henc. unfold SocketOps.send.
  cbn [connect_error send_error incoming trace]. rewrite Hsend.
  unfold HTTPRequest.get_http_response, bindIO, log.
  cbn [connect_error send_error incoming trace]. rewrite Hin.
  rewrite <- (app_nil_r (map Data chunks)).
  rewrite (recv_loop_chunks [] [] (fun buf => Ok buf) chunks);
    [|reflexivity | exact Hne].
  cbn [app]. rewrite Hdec. unfold SocketOps.close, lift, ret, log.
  cbn [connect_error send_error incoming trace].
  rewrite <- !app_assoc. reflexivity.
Qed.





End Calls.

(** * The caller in main.py *)

Section Main.
Import Socket.

(** X19. [send_data] to the collector of the configuration file: a
    connection to 172.16.153.150, port 80, and one request,
    [POST /data HTTP/1.1] with the [Host] header of that address, the
    [Content-Length] of the JSON text and the JSON text as body; no other
    header is sent.  The response is the decoding of all that is read. *)
Theorem send_data_to_collector (dumps : dict Json.value -> pystr)
  (http_body_json_data : dict Json.value) (w : world) (wire : bytes)
  (chunks : list bytes) (raw : pystr) :
  http_body_json_data <> [] ->
  Utf8.encode
    (lit "POST /data HTTP/1.1" ++ CRLF
     ++ lit "Host: 172.16.153.150" ++ CRLF
     ++ lit "Content-Length: "
     ++ Num.str_of_nat (length (dumps http_body_json_data)) ++ CRLF
     ++ CRLF ++ dumps http_body_json_data) = Ok wire ->
  connect_error w (lit "172.16.153.150") 80%Z = None ->
  send_error w wire = None ->
  incoming w = map Data chunks ->
  Forall (fun data => data <> []) chunks ->
  Utf8.decode (concat chunks) = Ok raw ->
  send_data dumps DESTINATION_URL http_body_json_data w
  = (Ok (HTTPResponse.new raw),
     mk_world (connect_error w) (send_error w) []
       (trace w
        ++ [Create; SetTimeout (QArith_base.Qmake 3 1);
            Connect (lit "172.16.153.150") 80%Z; Send wire]
        ++ repeat (Recv 1024) (S (length chunks)) ++ [Close])).
Proof.
  intros Hj Henc Hconn Hsend Hin Hne Hdec. unfold send_data, post.
  assert (Ht : truthy http_body_json_data = true)
    by (destruct http_body_json_data; [congruence | reflexivity]).
  match type of Henc with
  | Utf8.encode ?request = _ =>
      apply (session_round_trip dumps (lit "POST") DESTINATION_URL []
               http_body_json_data [] (QArith_base.Qmake 3 1) w
               (lit "172.16.153.150") None [lit "data"] request wire
               chunks raw)
  end; try assumption; try reflexivity.
  - unfold SLASH. simpl. lia.
  - unfold COLON. simpl. lia.
  - unfold SLASH. repeat constructor; simpl; lia.
  - rewrite Ht.
    rewrite (construct_post_json dumps _
               (mk_url (lit "http")
                  (lit "172.16.153.150", lit "172.16.153.150", AnInt 80)
                  (lit "/data")));
      [|reflexivity | exact Hj | cbn; symmetry; exact Ht | reflexivity].
    cbn [path netloc_0 netloc fst snd HTTPRequest.json HTTPRequest.headers
         HTTPRequest.header_lines].
    rewrite <- !app_assoc. reflexivity.
Qed.

Lemma send_data_to_collector_witness :
  send_data Json.dumps DESTINATION_URL x1 answering
  = (Ok (HTTPResponse.new sample_response),
     mk_world (connect_error answering) (send_error answering) []
       ([Create; SetTimeout (QArith_base.Qmake 3 1);
         Connect (lit "172.16.153.150") 80%Z;
         Send (lit "POST /data HTTP/1.1" ++ CRLF
               ++ lit "Host: 172.16.153.150" ++ CRLF
               ++ lit "Content-Length: 8" ++ CRLF ++ CRLF
               ++ lit "{" ++ quoted (lit "x") ++ lit ": 1}")]
        ++ [Recv 1024; Recv 1024; Recv 1024] ++ [Close])).
Proof.
  apply (send_data_to_collector Json.dumps x1 answering
           (lit "POST /data HTTP/1.1" ++ CRLF
            ++ lit "Host: 172.16.153.150" ++ CRLF
            ++ lit "Content-Length: 8" ++ CRLF ++ CRLF
            ++ lit "{" ++ quoted (lit "x") ++ lit ": 1}")
           [lit "HTTP/1.1 200 OK" ++ CRLF;
            lit "Content-Type: text/plain" ++ CRLFCRLF ++ lit "Hello"]
           sample_response).
  - discriminate.
  - reflexivity.
  - reflexivity.
  - reflexivity.
  - reflexivity.
  - repeat constructor; discriminate.
  - reflexivity.
Defined.

End Main.

(** * A well-formed response, read back *)

Lemma find_skip_no_cr (t rest sub' : pystr) :
  ~ In CR t ->
  Str.find (t ++ rest) (CR :: sub')
  = option_map (Nat.add (length t)) (Str.find rest (CR :: sub')).
Proof.
  induction t as [|c t IH]; intros H.
  - cbn [app length]. destruct (Str.find rest (CR :: sub')); reflexivity.
  - cbn [app]. rewrite find_later.
    + rewrite IH by (intros X; apply H; right; exact X).
      destruct (Str.find rest (CR :: sub')); reflexivity.
    + cbn [Str.startswith].
      destruct (N.eqb_spec c CR) as [->|]; [|reflexivity].
      exfalso. apply H. left. reflexivity.
Qed.

Lemma find_boundary_lines (lines : list pystr) (body : pystr) :
  Forall (fun l => l <> [] /\ ~ In CR l) lines ->
  Str.find (concat (map (app CRLF) lines) ++ CRLFCRLF ++ body) CRLFCRLF
  = Some (length (concat (map (app CRLF) lines))).
Proof.
  induction 1 as [|l lines [Hne Hcr] _ IH].
  - cbn [map concat app length]. apply find_here.
    exact (startswith_app CRLFCRLF body).
  - cbn [map concat]. rewrite <- !app_assoc.
    destruct l as [|c l]; [congruence|].
    assert (Hc : c <> CR) by (intros ->; apply Hcr; left; reflexivity).
    change (CRLF ++ (c :: l) ++ ?r) with (CR :: LF :: c :: (l ++ r)).
    rewrite find_later
      by (cbn; apply N.eqb_neq in Hc; rewrite Hc; reflexivity).
    rewrite find_later by reflexivity.
    change (c :: l ++ ?r) with ((c :: l) ++ r).
    rewrite (find_skip_no_cr (c :: l) _ [LF; CR; LF] Hcr).
    change (CR :: [LF; CR; LF]) with CRLFCRLF. rewrite IH.
    cbn [option_map]. f_equal. cbn [length]. rewrite length_app.
    cbn [length]. lia.
Qed.

Lemma crlf_join (lines : list pystr) :
  lines <> [] -> CRLF ++ Str.join CRLF lines = concat (map (app CRLF) lines).
Proof.
  induction lines as [|l lines IH]; [congruence|]. intros _.
  destruct lines as [|l' lines].
  - cbn. rewrite app_nil_r. reflexivity.
  - rewrite join_cons by (intros X; discriminate X).
    change (concat (map (app CRLF) (l :: l' :: lines)))
      with ((CRLF ++ l) ++ concat (map (app CRLF) (l' :: lines))).
    rewrite <- IH by (intros X; discriminate X).
    rewrite <- !app_assoc. reflexivity.
Qed.

(** Removing a character is filtering it out. *)
Lemma replace_is_filter (c : char) (s : pystr) :
  Str.replace s [c] [] = filter (fun x => negb (x =? c)%N) s.
Proof.
  unfold Str.replace, Str.split. rewrite join_empty.
  assert (G : forall p ps,
             Str.split_aux [c] s 0 = (p, ps) ->
             p ++ concat ps = filter (fun x => negb (x =? c)%N) s).
  { induction s as [|x s IH]; intros p ps E.
    - inversion E. reflexivity.
    - cbn [Str.split_aux] in E. rewrite startswith_single in E.
      change (length [c] - 1) with 0 in E.
      destruct (Str.split_aux [c] s 0) as [p' ps'].
      specialize (IH _ _ eq_refl). cbn [filter].
      destruct (x =? c)%N; inversion E; subst; cbn; rewrite <- IH; reflexivity. }
  destruct (Str.split_aux [c] s 0) as [p ps]. exact (G p ps eq_refl).
Qed.

Lemma unspace_join (lines : list pystr) :
  unspace (Str.join CRLF lines) = Str.join CRLF (map unspace lines).
Proof.
  induction lines as [|l [|l' lines] IH]; [reflexivity | reflexivity |].
  rewrite (join_cons CRLF l (l' :: lines)) by (intros X; discriminate X).
  cbn [map].
  rewrite (join_cons CRLF (unspace l) (unspace l' :: map unspace lines))
    by (intros X; discriminate X).
  unfold unspace in IH |- *. rewrite !filter_app.
  do 2 f_equal. exact IH.
Qed.

Lemma split_aux_no_cr (t rest : pystr) :
  ~ In CR t ->
  Str.split_aux CRLF (t ++ rest) 0
  = (t ++ fst (Str.split_aux CRLF rest 0), snd (Str.split_aux CRLF rest 0)).
Proof.
  induction t as [|c t IH]; intros H.
  - cbn [app]. destruct (Str.split_aux CRLF rest 0); reflexivity.
  - cbn [app Str.split_aux].
    assert (S : Str.startswith (c :: t ++ rest) CRLF = false).
    { cbn [Str.startswith CRLF].
      destruct (N.eqb_spec c CR) as [->|]; [|reflexivity].
      exfalso. apply H. left. reflexivity. }
    rewrite S, IH by (intros X; apply H; right; exact X). reflexivity.
Qed.

Lemma split_aux_crlf (rest : pystr) :
  Str.split_aux CRLF (CRLF ++ rest) 0
  = ([], fst (Str.split_aux CRLF rest 0) :: snd (Str.split_aux CRLF rest 0)).
Proof.
  change (CRLF ++ rest) with (CR :: LF :: rest).
  change (Str.split_aux CRLF (CR :: LF :: rest) 0)
    with (let (p, ps) := Str.split_aux CRLF rest 0 in ([] : pystr, p :: ps)).
  destruct (Str.split_aux CRLF rest 0). reflexivity.
Qed.

Lemma split_join_crlf (lines : list pystr) :
  lines <> [] -> Forall (fun l => ~ In CR l) lines ->
  Str.split (Str.join CRLF lines) CRLF = lines.
Proof.
  intros Hne H. unfold Str.split.
  induction H as [|l lines Hl Hrest IH]; [exfalso; apply Hne; reflexivity|].
  destruct lines as [|l' lines].
  - cbn [Str.join]. rewrite <- (app_nil_r l) at 1.
    rewrite (split_aux_no_cr l [] Hl). cbn. rewrite app_nil_r. reflexivity.
  - change (Str.join CRLF (l :: l' :: lines))
      with (l ++ CRLF ++ Str.join CRLF (l' :: lines)).
    rewrite (split_aux_no_cr l _ Hl), split_aux_crlf. cbn [fst snd].
    rewrite app_nil_r.
    specialize (IH (fun X => ltac:(discriminate X))).
    destruct (Str.split_aux CRLF (Str.join CRLF (l' :: lines)) 0) as [p ps].
    cbn [fst snd]. rewrite IH. reflexivity.
Qed.

Lemma dict_set_new {V} (d : dict V) (k : pystr) (v : V) :
  ~ In k (map fst d) -> dict_set d k v = d ++ [(k, v)].
Proof.
  induction d as [|[k' v'] d IH]; intros H; [reflexivity|].
  cbn [dict_set app]. destruct (Str.eqb k' k) eqn:E.
  - apply eqb_eq in E. exfalso. apply H. left. exact E.
  - rewrite IH by (intros X; apply H; right; exact X). reflexivity.
Qed.

Lemma headers_of_fresh_lines (items : list (pystr * pystr)) :
  Forall (fun kv => ~ In COLON (fst kv)) items ->
  NoDup (map fst items) ->
  forall d,
    (forall kv, In kv items -> ~ In (fst kv) (map fst d)) ->
    HTTPResponse.headers_of_lines
      (map (fun kv => fst kv ++ COLON :: snd kv) items) d
    = Ok (d ++ items).
Proof.
  induction 1 as [|[k v] items Hk _ IH]; intros Hnd d Hd.
  - cbn. rewrite app_nil_r. reflexivity.
  - cbn [map HTTPResponse.headers_of_lines fst snd].
    rewrite (split1_key_value k v Hk). cbn.
    inversion Hnd as [|? ? Hnew Hnd']; subst.
    rewrite dict_set_new by (apply (Hd (k, v)); left; reflexivity).
    rewrite IH; [rewrite <- app_assoc; reflexivity | exact Hnd' |].
    intros kv Hin. rewrite map_app, in_app_iff. intros [X|[X|[]]].
    + exact (Hd kv (or_intror Hin) X).
    + cbn in X. apply Hnew. rewrite X. apply in_map. exact Hin.
Qed.

Lemma unspace_id (s : pystr) : ~ In SP s -> unspace s = s.
Proof.
  induction s as [|c s IH]; intros H; [reflexivity|]. cbn [unspace filter].
  destruct (N.eqb_spec c SP) as [->|_]; [exfalso; apply H; left; reflexivity|].
  cbn [negb]. f_equal. apply IH. intros X. apply H. right. exact X.
Qed.

Lemma unspace_response_line (kv : pystr * pystr) :
  ~ In SP (fst kv) ->
  unspace (response_line kv) = fst kv ++ COLON :: unspace (snd kv).
Proof.
  intros H. unfold response_line, unspace. rewrite !filter_app.
  f_equal. exact (unspace_id _ H).
Qed.

Lemma occurs_crlf_has_cr (s : pystr) : occurs CRLF s -> In CR s.
Proof.
  intros [pre [post ->]]. apply in_or_app. right. left. reflexivity.
Qed.

(** X20. A response as a server writes it, read back.  Take a status line
    without a carriage return, at least one header [name: value] with
    different names that have no space, colon or carriage return, values
    without carriage return, each line ended by CR LF, then the blank line
    and any body.  [headers] returns the names with their values, in the
    order of the lines, each value with its spaces taken out; [text] returns
    the body. *)
Theorem well_formed_response_reads_back (status body : pystr)
  (items : list (pystr * pystr)) :
  ~ In CR status ->
  items <> [] ->
  Forall (fun kv => ~ In CR (fst kv) /\ ~ In CR (snd kv)
                    /\ ~ In COLON (fst kv) /\ ~ In SP (fst kv)) items ->
  NoDup (map fst items) ->
  let response :=
    HTTPResponse.new
      (status ++ CRLF ++ Str.join CRLF (map response_line items)
       ++ CRLFCRLF ++ body) in
  HTTPResponse.headers response
  = Ok (map (fun kv => (fst kv, unspace (snd kv))) items)
  /\ HTTPResponse.text response = Ok body.
Proof.
  intros Hstatus Hne Hitems Hnd response.
  set (lines := map response_line items).
  set (J := Str.join CRLF lines).
  set (T := concat (map (app CRLF) lines)).
  assert (Hlines : lines <> [])
    by (subst lines; destruct items; [congruence | discriminate]).
  assert (HT : CRLF ++ J = T) by (apply crlf_join; exact Hlines).
  assert (Hraw : status ++ CRLF ++ J ++ CRLFCRLF ++ body
                 = status ++ T ++ CRLFCRLF ++ body)
    by (rewrite <- HT, <- !app_assoc; reflexivity).
  assert (Hclean : Forall (fun l => l <> [] /\ ~ In CR l) lines).
  { subst lines. apply Forall_map. eapply Forall_impl; [|exact Hitems].
    intros [k v] [Hk [Hv _]]. unfold response_line. cbn [fst snd]. split.
    - destruct k; discriminate.
    - intros X. apply in_app_or in X as [X|X]; [exact (Hk X)|].
      apply in_app_or in X as [X|X]; [|exact (Hv X)].
      unfold CR in X. simpl in X. lia. }
  assert (F1 : Str.find (status ++ CRLF ++ J ++ CRLFCRLF ++ body) CRLF
               = Some (length status)).
  { apply find_line_break. intros O. exact (Hstatus (occurs_crlf_has_cr _ O)). }
  assert (F2 : Str.find (status ++ CRLF ++ J ++ CRLFCRLF ++ body) CRLFCRLF
               = Some (length status + length T)).
  { rewrite Hraw.
    pose proof (find_skip_no_cr status (T ++ CRLFCRLF ++ body) [LF; CR; LF]
                  Hstatus) as E.
    change (CR :: [LF; CR; LF]) with CRLFCRLF in E. rewrite E. unfold T.
    rewrite (find_boundary_lines lines body Hclean). reflexivity. }
  assert (HlenT : length T = 2 + length J)
    by (rewrite <- HT, length_app; reflexivity).
  split.
  - unfold HTTPResponse.headers, HTTPResponse.header_block, Str.index.
    change (HTTPResponse.raw_http_response response)
      with (status ++ CRLF ++ J ++ CRLFCRLF ++ body).
    rewrite F1, F2. cbn [bind]. unfold Str.slice.
    replace (length status + length T - (length status + 2))
      with (length J) by lia.
    replace (skipn (length status + 2) (status ++ CRLF ++ J ++ CRLFCRLF ++ body))
      with (J ++ CRLFCRLF ++ body)
      by (symmetry; apply (skipn_after status CRLF)).
    rewrite firstn_line.
    rewrite (replace_is_filter SP J). fold (unspace J).
    subst J. rewrite unspace_join.
    rewrite split_join_crlf.
    + subst lines. rewrite map_map.
      rewrite (map_ext_in _ (fun kv => fst kv ++ COLON :: unspace (snd kv))).
      * rewrite <- (map_map (fun kv => (fst kv, unspace (snd kv)))
                     (fun kv => fst kv ++ COLON :: snd kv)).
        rewrite headers_of_fresh_lines; [reflexivity | | |].
        -- apply Forall_map. eapply Forall_impl; [|exact Hitems].
           intros kv [_ [_ [H _]]]. exact H.
        -- rewrite map_map. cbn [fst]. exact Hnd.
        -- intros kv _ [].
      * intros kv Hin. apply unspace_response_line.
        rewrite Forall_forall in Hitems.
        destruct (Hitems kv Hin) as [_ [_ [_ H]]]. exact H.
    + destruct lines; [congruence | discriminate].
    + apply Forall_map. eapply Forall_impl; [|exact Hclean].
      intros l [_ Hl] X. apply Hl. unfold unspace in X.
      apply filter_In in X. tauto.
  - unfold HTTPResponse.text, Str.index, Str.slice_from.
    change (HTTPResponse.raw_http_response response)
      with (status ++ CRLF ++ J ++ CRLFCRLF ++ body).
    rewrite F2. cbn [bind]. f_equal. rewrite Hraw, app_assoc.
    replace (length status + length T + 4)
      with (length (status ++ T) + length CRLFCRLF)
      by (rewrite length_app; reflexivity).
    apply skipn_after.
Qed.

Lemma well_formed_response_reads_back_witness :
  let response :=
    HTTPResponse.new
      (lit "HTTP/1.1 200 OK" ++ CRLF
       ++ lit "Content-Type: text/plain; charset=utf-8" ++ CRLF
       ++ lit "Server: a b" ++ CRLFCRLF ++ lit "Hello") in
  HTTPResponse.headers response
  = Ok [(lit "Content-Type", lit "text/plain;charset=utf-8");
        (lit "Server", lit "ab")]
  /\ HTTPResponse.text response = Ok (lit "Hello").
Proof.
  apply (well_formed_response_reads_back (lit "HTTP/1.1 200 OK") (lit "Hello")
           [(lit "Content-Type", lit "text/plain; charset=utf-8");
            (lit "Server", lit "a b")]).
  - unfold CR. simpl. lia.
  - discriminate.
  - unfold CR, COLON, SP. repeat constructor; simpl; lia.
  - repeat constructor; simpl; intuition discriminate.
Defined.

(** * The errors of the response parser *)

Lemma magnitude_errors (s : pystr) (e : exn) :
  Num.magnitude s = Raise e -> e = Num.int_error.
Proof.
  unfold Num.magnitude. destruct (Num.digits s false); [discriminate|].
  intros H. inversion H. reflexivity.
Qed.

Lemma int_of_str_errors (s : pystr) (e : exn) :
  Num.int_of_str s = Raise e -> e = Num.int_error.
Proof.
  unfold Num.int_of_str.
  destruct (Str.strip s) as [|c t]; [apply magnitude_errors|].
  destruct (N.eq_dec c 45) as [->|H45].
  - destruct (Num.magnitude t) eqn:M; cbn [bind]; [discriminate|].
    intros H. inversion H; subst. exact (magnitude_errors t _ M).
  - destruct (N.eq_dec c 43) as [->|H43]; [apply magnitude_errors|].
    destruct c as [|p]; [apply magnitude_errors|].
    do 6 (destruct p as [p|p|]; try apply magnitude_errors); congruence.
Qed.

Lemma index_errors (s sub : pystr) (e : exn) :
  Str.index s sub = Raise e -> e = not_found.
Proof.
  unfold Str.index. destruct (Str.find s sub); [discriminate|].
  intros H. inversion H. reflexivity.
Qed.

Lemma getitem_errors {A} (l : list A) (i : nat) (e : exn) :
  getitem l i = Raise e -> e = index_error.
Proof.
  destruct (getitem_cases l i) as [[x ->]| ->]; [discriminate|].
  intros H. inversion H. reflexivity.
Qed.

Lemma headers_of_lines_errors (lines : list pystr) (e : exn) :
  forall d, HTTPResponse.headers_of_lines lines d = Raise e -> e = index_error.
Proof.
  induction lines as [|line lines IH]; intros d; [discriminate|].
  cbn [HTTPResponse.headers_of_lines].
  destruct (truthy (Str.split1 line [COLON])); [|apply IH].
  destruct (getitem (Str.split1 line [COLON]) 0) eqn:G0; cbn [bind];
    [|intros H; inversion H; subst; exact (getitem_errors _ _ _ G0)].
  destruct (getitem (Str.split1 line [COLON]) 1) eqn:G1; cbn [bind];
    [apply IH | intros H; inversion H; subst; exact (getitem_errors _ _ _ G1)].
Qed.

(** X21. What reading a response can raise.  [text] raises only the
    [ValueError] of a missing blank line; [headers] that one (also for a
    missing line break) or [IndexError]; [status_code] the [ValueError] of
    a missing line break, [IndexError], or the [ValueError] of [int] for a
    status code that is no number. *)
Theorem response_errors (raw : pystr) (e : exn) :
  (HTTPResponse.text (HTTPResponse.new raw) = Raise e -> e = not_found)
  /\ (HTTPResponse.headers (HTTPResponse.new raw) = Raise e ->
      e = not_found \/ e = index_error)
  /\ (HTTPResponse.status_code (HTTPResponse.new raw) = Raise e ->
      e = not_found \/ e = index_error \/ e = Num.int_error).
Proof.
  split; [|split].
  - unfold HTTPResponse.text. cbn [HTTPResponse.raw_http_response].
    destruct (Str.index raw CRLFCRLF) eqn:I; cbn [bind]; [discriminate|].
    intros H. inversion H; subst. exact (index_errors _ _ _ I).
  - unfold HTTPResponse.headers, HTTPResponse.header_block.
    cbn [HTTPResponse.raw_http_response].
    destruct (Str.index raw CRLF) eqn:I1; cbn [bind];
      [|intros H; inversion H; subst; left; exact (index_errors _ _ _ I1)].
    destruct (Str.index raw CRLFCRLF) eqn:I2; cbn [bind];
      [|intros H; inversion H; subst; left; exact (index_errors _ _ _ I2)].
    intros H. right. exact (headers_of_lines_errors _ _ _ H).
  - unfold HTTPResponse.status_code, HTTPResponse._status_line.
    cbn [HTTPResponse.raw_http_response].
    destruct (Str.index raw CRLF) eqn:I1; cbn [bind];
      [|intros H; inversion H; subst; left; exact (index_errors _ _ _ I1)].
    cbv zeta.
    destruct (getitem _ 0) eqn:G0; cbn [bind];
      [|intros H; inversion H; subst; right; left;
        exact (getitem_errors _ _ _ G0)].
    destruct (getitem _ 1) eqn:G1; cbn [bind];
      [|intros H; inversion H; subst; right; left;
        exact (getitem_errors _ _ _ G1)].
    destruct (getitem _ 2) eqn:G2; cbn [bind];
      [|intros H; inversion H; subst; right; left;
        exact (getitem_errors _ _ _ G2)].
    cbn [status_code]. intros H. right. right.
    exact (int_of_str_errors _ _ H).
Qed.

(** * A call that fails on the way *)

Section Failures.
Import Socket.



End Failures.
